(** * aptly: [snapshot pull] (cmd/snapshot_pull.go)

    A shallow embedding of the command [aptlySnapshotPull] and of the
    closure loop it runs over two package lists, with the operations of
    package [deb] that the command calls kept behind an interface. *)

From Stdlib Require Import List String Ascii Bool Arith Lia.
From Stdlib Require Import Sorting.Sorted Sorting.Permutation.
Import ListNotations.
Open Scope string_scope.
Open Scope list_scope.

(** ** Data model *)

(** Go's [error], identified with its message; [nil] is [None]. *)
Definition error := string.

(** [fmt.Errorf (prefix ++ "%s", err)]. *)
Definition Errorf (prefix : string) (e : error) : error := (prefix ++ e)%string.

(** Modelled from the spec: the version operators of a dependency
    expression ([deb.Dependency] is declared outside this file). *)
Inductive Operator := OpLess | OpLessOrEqual | OpEqual | OpGreaterOrEqual | OpGreater.

Module Dependency.
(** Modelled from the spec: [deb.Dependency].  The command reads and writes
    the fields [Pkg] and [Architecture]; a literal that names only those two
    leaves the version constraint at its zero value. *)
Record t := Build { Pkg : string; Architecture : string;
                    VersionConstraint : option (Operator * string) }.
End Dependency.

Module Package.
(** Modelled from the spec: [deb.Package].  The command reads [Name] and
    [Architecture]; [Depends] is the raw relational metadata handed to
    dependency verification.  A package reference is identified with the
    record it points to. *)
Record t := Build { Name : string; Version : string; Architecture : string;
                    Depends : list string }.
End Package.

Module Snapshot.
(** Modelled from the spec: [deb.Snapshot], with its parents recorded by
    name and its reference list as a list of package keys. *)
Record t := Build { Name : string; RefList : list string;
                    Parents : list string; Description : string }.
End Snapshot.

Definition Operator_eq_dec (a b : Operator) : {a = b} + {a <> b}.
Proof. decide equality. Defined.

Definition Dependency_eq_dec (a b : Dependency.t) : {a = b} + {a <> b}.
Proof.
  decide equality.
  - decide equality. decide equality.
    + apply string_dec.
    + apply Operator_eq_dec.
  - apply string_dec.
  - apply string_dec.
Defined.

Definition Package_eq_dec (a b : Package.t) : {a = b} + {a <> b}.
Proof.
  decide equality; try apply string_dec.
  apply (list_eq_dec string_dec).
Defined.

(** Go's [==] on two [deb.Dependency] structs. *)
Definition depEq (a b : Dependency.t) : bool :=
  if Dependency_eq_dec a b then true else false.

(** ** The interface of package [deb] and of the snapshot collection *)

Class Deb := {
  PackageList : Type;
  SnapshotCollection : Type;
  (** [deb.NewPackageList()] *)
  NewPackageList : PackageList;
  (** [l.Add(p)]; the command discards the error it returns. *)
  Add : PackageList -> Package.t -> PackageList;
  (** [l.Remove(p)] *)
  Remove : PackageList -> Package.t -> PackageList;
  (** [l.Search(dep, allMatches)]; Go's [nil] is the empty list. *)
  Search : PackageList -> Dependency.t -> bool -> list Package.t;
  (** [l.PrepareIndex()] *)
  PrepareIndex : PackageList -> PackageList;
  (** [l.Architectures(includeSource)] *)
  Architectures : PackageList -> bool -> list string;
  (** [l.VerifyDependencies(options, architectures, sources, nil)] *)
  VerifyDependencies :
    PackageList -> nat -> list string -> PackageList ->
    list Dependency.t * option error;
  (** [deb.ParseDependency(arg)] *)
  ParseDependency : string -> Dependency.t * option error;
  (** [deb.NewPackageListFromRefList(refs, packageCollection, progress)] *)
  NewPackageListFromRefList : list string -> PackageList * option error;
  (** [deb.NewPackageRefListFromPackageList(l)] *)
  NewPackageRefListFromPackageList : PackageList -> list string;
  (** [SnapshotCollection().ByName(name)] *)
  ByName : SnapshotCollection -> string -> Snapshot.t + error;
  (** [SnapshotCollection().LoadComplete(snapshot)] *)
  LoadComplete : SnapshotCollection -> Snapshot.t -> Snapshot.t + error;
  (** [SnapshotCollection().Add(snapshot)] *)
  CollectionAdd : SnapshotCollection -> Snapshot.t -> SnapshotCollection * option error;
  (** [commander.ErrCommandError] *)
  ErrCommandError : error
}.

(** The flags and settings read from the global [context]. *)
Record Context := {
  dryRun : bool;
  noDeps : bool;
  noRemove : bool;
  allMatches : bool;
  ArchitecturesList : list string;
  DependencyOptions : nat
}.

(** What the command sends to [context.Progress()], one constructor per
    print statement of the source. *)
Inductive Message :=
| MsgUsage
| MsgPlan (snapshot source : Snapshot.t) (name : string)
| MsgLoading (n : nat)
| MsgBuildingIndexes
| MsgUnsatisfiable (dep : Dependency.t) (source : Snapshot.t)
| MsgRemoved (p : Package.t)
| MsgAdded (p : Package.t)
| MsgVerifyError (pkg : Package.t) (e : error)
| MsgDryRun
| MsgCreated (name : string).

(** Ghost history of the loop: the architecture each outer iteration starts
    with, every search (on which list, for which expression) and every
    dependency verification with the error it returned. *)
Inductive Call :=
| CArch (arch : string)
| CSearchSource (dep : Dependency.t)
| CSearchDest (dep : Dependency.t)
| CVerify (pkg : Package.t) (arch : string) (e : option error).

(** ** [sort.Strings] *)

Fixpoint insertString (s : string) (l : list string) : list string :=
  match l with
  | [] => [s]
  | x :: r => if String.leb s x then s :: l else x :: insertString s r
  end.

Fixpoint sortStrings (l : list string) : list string :=
  match l with
  | [] => []
  | x :: r => insertString x (sortStrings r)
  end.

Definition stringLe (a b : string) : Prop := String.leb a b = true.

(** Modelled from the spec: [deb.NewSnapshotFromPackageList], the snapshot
    assembler: a new snapshot with the given name, parents and description
    whose references are those of the package list. *)
Definition NewSnapshotFromPackageList `{Deb} (name : string) (sources : list Snapshot.t)
    (list : PackageList) (description : string) : Snapshot.t :=
  Snapshot.Build name (NewPackageRefListFromPackageList list)
                 (map Snapshot.Name sources) description.

(** [strings.Join(a, sep)] *)
Fixpoint Join (a : list string) (sep : string) : string :=
  match a with
  | [] => ""
  | [x] => x
  | x :: r => (x ++ sep ++ Join r sep)%string
  end.

(** ** The command *)

(** The mutable part of the global [context], over the type of the snapshot
    collection. *)
Record EnvOf (SC : Type) := {
  collection : SC;
  progress : list Message;
  history : list Call
}.
Arguments collection {SC} _.
Arguments progress {SC} _.
Arguments history {SC} _.

(** The local variables the loops share, over the type of package lists. *)
Record LocalsOf (PL SC : Type) := {
  packageList : PL;
  sourcePackageList : PL;
  err : option error;
  env : EnvOf SC
}.
Arguments packageList {PL SC} _.
Arguments sourcePackageList {PL SC} _.
Arguments err {PL SC} _.
Arguments env {PL SC} _.

(** What lines 15-63 leave behind: the two loaded snapshots and the local
    variables, [err] being [nil]. *)
Record LoadedOf (PL SC : Type) := {
  snapshot : Snapshot.t;
  source : Snapshot.t;
  locals : LocalsOf PL SC
}.
Arguments snapshot {PL SC} _.
Arguments source {PL SC} _.
Arguments locals {PL SC} _.

(** What lines 15-87 hand over to the loop. *)
Record PreparedOf (PL SC : Type) := {
  loaded : LoadedOf PL SC;
  initialDependencies : list Dependency.t;
  architecturesList : list string
}.
Arguments loaded {PL SC} _.
Arguments initialDependencies {PL SC} _.
Arguments architecturesList {PL SC} _.

Section Pull.
Context `{D : Deb}.

Definition Env : Type := EnvOf SnapshotCollection.
Definition Locals : Type := LocalsOf PackageList SnapshotCollection.
Definition Loaded : Type := LoadedOf PackageList SnapshotCollection.
Definition Prepared : Type := PreparedOf PackageList SnapshotCollection.

Definition print (m : Message) (st : Locals) : Locals :=
  {| packageList := packageList st; sourcePackageList := sourcePackageList st;
     err := err st;
     env := {| collection := collection (env st);
               progress := progress (env st) ++ [m];
               history := history (env st) |} |}.

Definition record (c : Call) (st : Locals) : Locals :=
  {| packageList := packageList st; sourcePackageList := sourcePackageList st;
     err := err st;
     env := {| collection := collection (env st);
               progress := progress (env st);
               history := history (env st) ++ [c] |} |}.

Definition setPackageList (l : PackageList) (st : Locals) : Locals :=
  {| packageList := l; sourcePackageList := sourcePackageList st;
     err := err st; env := env st |}.

Definition setErr (e : option error) (st : Locals) : Locals :=
  {| packageList := packageList st; sourcePackageList := sourcePackageList st;
     err := e; env := env st |}.

Variable ctx : Context.
(** The loaded [source] snapshot, named in the diagnostics. *)
Variable sourceSnapshot : Snapshot.t.
(** Iteration budget of each of the two unbounded [for] loops. *)
Variable fuel : nat.

(** [deb.Dependency{Architecture: pkg.Architecture, Pkg: pkg.Name}] *)
Definition sameNameArch (pkg : Package.t) : Dependency.t :=
  Dependency.Build (Package.Name pkg) (Package.Architecture pkg) None.

(** Lines 112-115: remove every package of one search result. *)
Definition removeFound (pS : list Package.t) (st : Locals) : Locals :=
  fold_left (fun st p => print (MsgRemoved p) (setPackageList (Remove (packageList st) p) st))
            pS st.

(** Lines 111-117: search and remove until the search returns nothing. *)
Fixpoint removeLoop (n : nat) (pkg : Package.t) (st : Locals) : option Locals :=
  match n with
  | 0 => None
  | S n' =>
      let pS := Search (packageList st) (sameNameArch pkg) (allMatches ctx) in
      let st := record (CSearchDest (sameNameArch pkg)) st in
      match pS with
      | [] => Some st
      | _ :: _ => removeLoop n' pkg (removeFound pS st)
      end
  end.

(** Lines 110-118. *)
Fixpoint removeAll (searchResults : list Package.t) (st : Locals) : option Locals :=
  match searchResults with
  | [] => Some st
  | pkg :: rest =>
      match removeLoop fuel pkg st with
      | None => None
      | Some st' => removeAll rest st'
      end
  end.

(** Lines 122-125. *)
Definition addAll (searchResults : list Package.t) (st : Locals) : Locals :=
  fold_left (fun st pkg => print (MsgAdded pkg) (setPackageList (Add (packageList st) pkg) st))
            searchResults st.

(** Lines 144-154: append [misDep] unless an equal expression is listed. *)
Definition appendMissing (dependencies : list Dependency.t) (misDep : Dependency.t)
  : list Dependency.t :=
  if existsb (fun d => depEq d misDep) dependencies then dependencies
  else dependencies ++ [misDep].

(** Lines 137-140: [err] takes the verifier's error, which is printed when
    it is not [nil]. *)
Definition reportVerification (pkg : Package.t) (arch : string) (e : option error)
    (st : Locals) : Locals :=
  let st := record (CVerify pkg arch e) (setErr e st) in
  match e with
  | Some x => print (MsgVerifyError pkg x) st
  | None => st
  end.

(** Lines 134-155: one iteration of the loop over the search results. *)
Definition verifyOne (arch : string)
    (acc : PackageList * list Dependency.t * Locals) (pkg : Package.t)
  : PackageList * list Dependency.t * Locals :=
  let '(pL, dependencies, st) := acc in
  let pL := Add pL pkg in
  let '(missing, e) :=
    VerifyDependencies pL (DependencyOptions ctx) [arch] (packageList st) in
  (pL, fold_left appendMissing missing dependencies,
   reportVerification pkg arch e st).

(** Lines 132-156. *)
Definition verifyAll (arch : string) (searchResults : list Package.t)
    (dependencies : list Dependency.t) (st : Locals)
  : list Dependency.t * Locals :=
  let '(_, dependencies, st) :=
    fold_left (verifyOne arch) searchResults (NewPackageList, dependencies, st) in
  (dependencies, st).

(** Lines 98-157: the loop over the growing list, from index [i]. *)
Fixpoint closure (n : nat) (arch : string) (i : nat)
    (dependencies : list Dependency.t) (st : Locals)
  : option (list Dependency.t * Locals) :=
  match n with
  | 0 => None
  | S n' =>
      match nth_error dependencies i with
      | None => Some (dependencies, st)
      | Some dep =>
          let searchResults := Search (sourcePackageList st) dep (allMatches ctx) in
          let st := record (CSearchSource dep) st in
          match searchResults with
          | [] => closure n' arch (S i) dependencies
                          (print (MsgUnsatisfiable dep sourceSnapshot) st)
          | _ :: _ =>
              match (if noRemove ctx then Some st else removeAll searchResults st) with
              | None => None
              | Some st =>
                  let st := addAll searchResults st in
                  if noDeps ctx then closure n' arch (S i) dependencies st
                  else
                    let '(dependencies, st) :=
                      verifyAll arch searchResults dependencies st in
                    closure n' arch (S i) dependencies st
              end
          end
      end
  end.

(** Lines 91-95: the initial expressions bound to [arch]. *)
Definition bindArch (arch : string) (d : Dependency.t) : Dependency.t :=
  Dependency.Build (Dependency.Pkg d) arch (Dependency.VersionConstraint d).

(** Lines 91-157: the body of the loop over the architectures. *)
Definition pullArch (initialDependencies : list Dependency.t) (arch : string)
    (st : Locals) : option (list Dependency.t * Locals) :=
  closure fuel arch 0 (map (bindArch arch) initialDependencies)
          (record (CArch arch) st).

(** Lines 90-158. *)
Fixpoint performPull (initialDependencies : list Dependency.t)
    (architecturesList : list string) (st : Locals) : option Locals :=
  match architecturesList with
  | [] => Some st
  | arch :: rest =>
      match pullArch initialDependencies arch st with
      | None => None
      | Some (_, st') => performPull initialDependencies rest st'
      end
  end.

(** Lines 82-87: parse the arguments in order, stopping at the first error. *)
Fixpoint parseAll (queries : list string) : list Dependency.t + error :=
  match queries with
  | [] => inl []
  | arg :: rest =>
      match ParseDependency arg with
      | (_, Some e) => inr (Errorf "unable to parse argument: " e)
      | (d, None) =>
          match parseAll rest with
          | inl ds => inl (d :: ds)
          | inr e => inr e
          end
      end
  end.

(** Lines 66-74. *)
Definition chooseArchitectures (packageList : PackageList) : list string :=
  sortStrings
    (match ArchitecturesList ctx with
     | _ :: _ => ArchitecturesList ctx
     | [] => Architectures packageList false
     end).

Definition say (m : Message) (e : Env) : Env :=
  {| collection := collection e; progress := progress e ++ [m]; history := history e |}.

End Pull.

Section Command.
Context `{D : Deb}.
Variable ctx : Context.
Variable fuel : nat.

(** Lines 15-63: argument count, loading of the two snapshots and of their
    package lists, indexes.  Every early [return] of the source is an [inl]. *)
Definition load (args : list string) (e : Env) : (error * Env) + Loaded :=
  match args with
  | name :: sourceName :: destinationName :: _ :: _ =>
      match ByName (collection e) name with
      | inr x => inl (Errorf "unable to pull: " x, e)
      | inl snapshot =>
      match LoadComplete (collection e) snapshot with
      | inr x => inl (Errorf "unable to pull: " x, e)
      | inl snapshot =>
      match ByName (collection e) sourceName with
      | inr x => inl (Errorf "unable to pull: " x, e)
      | inl source =>
      match LoadComplete (collection e) source with
      | inr x => inl (Errorf "unable to pull: " x, e)
      | inl source =>
      let e := say (MsgPlan snapshot source destinationName) e in
      let e := say (MsgLoading (List.length (Snapshot.RefList snapshot)
                                + List.length (Snapshot.RefList source))) e in
      match NewPackageListFromRefList (Snapshot.RefList snapshot) with
      | (_, Some x) => inl (Errorf "unable to load packages: " x, e)
      | (packageList, None) =>
      match NewPackageListFromRefList (Snapshot.RefList source) with
      | (_, Some x) => inl (Errorf "unable to load packages: " x, e)
      | (sourcePackageList, None) =>
          inr {| snapshot := snapshot; source := source;
                 locals := {| packageList := PrepareIndex packageList;
                              sourcePackageList := PrepareIndex sourcePackageList;
                              err := None;
                              env := say MsgBuildingIndexes e |} |}
      end end end end end end
  | _ => inl (ErrCommandError, say MsgUsage e)
  end.

(** Lines 15-87: loading, then the architectures, then the initial
    expressions parsed from [args[3:]]. *)
Definition prepare (args : list string) (e : Env) : (error * Env) + Prepared :=
  match load args e with
  | inl x => inl x
  | inr l =>
      match chooseArchitectures ctx (packageList (locals l)) with
      | [] => inl ("unable to determine list of architectures, please specify explicitly",
                   env (locals l))
      | (_ :: _) as architecturesList =>
          match parseAll (skipn 3 args) with
          | inr x => inl (x, env (locals l))
          | inl initialDependencies =>
              inr {| loaded := l; initialDependencies := initialDependencies;
                     architecturesList := architecturesList |}
          end
      end
  end.

(** Lines 164-165: the snapshot to create. *)
Definition newDestination (args : list string) (p : Prepared) (st : Locals)
  : Snapshot.t :=
  NewSnapshotFromPackageList (nth 2 args "")
    [snapshot (loaded p); source (loaded p)] (packageList st)
    ("Pulled into '" ++ Snapshot.Name (snapshot (loaded p)) ++ "' with '"
       ++ Snapshot.Name (source (loaded p)) ++ "' as source, pull request was: '"
       ++ Join (skipn 3 args) " " ++ "'")%string.

(** Lines 160-174. *)
Definition finish (args : list string) (p : Prepared) (st : Locals)
  : option error * Env :=
  if dryRun ctx then (err st, say MsgDryRun (env st))
  else
    let destination := newDestination args p st in
    let '(c, e) := CollectionAdd (collection (env st)) destination in
    let env' := {| collection := c; progress := progress (env st);
                   history := history (env st) |} in
    match e with
    | Some x => (Some (Errorf "unable to create snapshot: " x), env')
    | None => (None, say (MsgCreated (Snapshot.Name destination)) env')
    end.

(** [aptlySnapshotPull]: [None] when a loop exhausts its budget. *)
Definition aptlySnapshotPull (args : list string) (e : Env)
  : option (option error * Env) :=
  match prepare args e with
  | inl (x, e') => Some (Some x, e')
  | inr p =>
      match performPull ctx (source (loaded p)) fuel (initialDependencies p)
                        (architecturesList p) (locals (loaded p)) with
      | None => None
      | Some st => Some (finish args p st)
      end
  end.

End Command.

(** ** A model of package [deb] and of the snapshot registry

    Package [deb] and the collections are not part of this file's source; the
    definitions of this section follow the specification's description of
    them (sections 4.1 to 4.5 and 6). *)

Section SpecModel.
(** Debian-style version comparison, left open. *)
Variable compareVersions : string -> string -> comparison.
(** The package repository that resolves the keys of a reference list. *)
Variable repository : list Package.t.

Definition pkgEq (p q : Package.t) : bool :=
  if Package_eq_dec p q then true else false.

(** Modelled from the spec: whether a version satisfies [op version]
    (4.1, version constraint of an expression). *)
Definition satisfies (v : string) (c : Operator * string) : bool :=
  match fst c, compareVersions v (snd c) with
  | OpLess, Lt => true
  | OpLessOrEqual, Lt => true
  | OpLessOrEqual, Eq => true
  | OpEqual, Eq => true
  | OpGreaterOrEqual, Gt => true
  | OpGreaterOrEqual, Eq => true
  | OpGreater, Gt => true
  | _, _ => false
  end.

(** Modelled from the spec: the matching of 4.1 as [search] of 4.2 uses it:
    same name, version constraint satisfied, architecture exactly that of the
    expression. *)
Definition matchesDep (d : Dependency.t) (p : Package.t) : bool :=
  String.eqb (Package.Name p) (Dependency.Pkg d)
  && match Dependency.VersionConstraint d with
     | None => true
     | Some c => satisfies (Package.Version p) c
     end
  && String.eqb (Package.Architecture p) (Dependency.Architecture d).

(** The first package of highest version among [best :: l]. *)
Fixpoint highest (best : Package.t) (l : list Package.t) : Package.t :=
  match l with
  | [] => best
  | p :: r =>
      highest (match compareVersions (Package.Version p) (Package.Version best) with
               | Gt => p
               | _ => best
               end) r
  end.

(** Modelled from the spec: [search(expression, all_matches)] of 4.2. *)
Definition specSearch (l : list Package.t) (d : Dependency.t) (all : bool)
  : list Package.t :=
  let found := filter (matchesDep d) l in
  if all then found
  else match found with
       | [] => []
       | p :: r => [highest p r]
       end.

(** Modelled from the spec: [add(package)] of 4.2, idempotent. *)
Definition specAdd (l : list Package.t) (p : Package.t) : list Package.t :=
  if existsb (pkgEq p) l then l else l ++ [p].

(** Modelled from the spec: [remove(package)] of 4.2, a no-op when absent. *)
Definition specRemove (l : list Package.t) (p : Package.t) : list Package.t :=
  filter (fun q => negb (pkgEq q p)) l.

(** Modelled from the spec: [architectures(include_source)] of 4.2. *)
Definition specArchitectures (l : list Package.t) (includeSource : bool) : list string :=
  nodup string_dec
    (filter (fun a => includeSource || negb (String.eqb a "source"))
            (map Package.Architecture l)).

(** Splits a string at the first occurrence of [c]. *)
Fixpoint splitAt (c : ascii) (s : string) : string * option string :=
  match s with
  | EmptyString => (EmptyString, None)
  | String a r =>
      if Ascii.eqb a c then (EmptyString, Some r)
      else let '(x, y) := splitAt c r in (String a x, y)
  end.

(** A non-empty word without blanks or parentheses. *)
Fixpoint plainChars (s : string) : bool :=
  match s with
  | EmptyString => true
  | String a r =>
      negb (Ascii.eqb a " ") && negb (Ascii.eqb a "(") && negb (Ascii.eqb a ")")
      && plainChars r
  end.

Definition validWord (s : string) : bool :=
  negb (String.eqb s "") && plainChars s.

Definition parseOperator (s : string) : option Operator :=
  if String.eqb s "<<" then Some OpLess
  else if String.eqb s "<=" then Some OpLessOrEqual
  else if String.eqb s "=" then Some OpEqual
  else if String.eqb s ">=" then Some OpGreaterOrEqual
  else if String.eqb s ">>" then Some OpGreater
  else None.

Definition malformed (s : string) : Dependency.t * option error :=
  (Dependency.Build "" "" None, Some ("MalformedDependency: " ++ s)%string).

(** Modelled from the spec: the parser of 4.1 for the grammar
    [name[ (op version)]]; the architecture is left unbound. *)
Definition specParse (s : string) : Dependency.t * option error :=
  match splitAt " " s with
  | (name, None) =>
      if validWord name then (Dependency.Build name "" None, None) else malformed s
  | (name, Some (String "(" rest)) =>
      match splitAt " " rest with
      | (op, Some tail) =>
          match parseOperator op, splitAt ")" tail with
          | Some o, (version, Some EmptyString) =>
              if validWord name && validWord version
              then (Dependency.Build name "" (Some (o, version)), None)
              else malformed s
          | _, _ => malformed s
          end
      | _ => malformed s
      end
  | _ => malformed s
  end.

(** One requirement of a package, checked on each architecture. *)
Definition verifyRelation (architectures : list string) (context : list Package.t)
    (p : Package.t) (acc : list Dependency.t * option error) (relation : string)
  : list Dependency.t * option error :=
  let '(missing, e) := acc in
  match specParse relation with
  | (_, Some _) =>
      (missing,
       match e with
       | None => Some ("InvalidRelation: " ++ Package.Name p)%string
       | Some _ => e
       end)
  | (d, None) =>
      (fold_left
         (fun missing a =>
            match specSearch context (bindArch a d) false with
            | [] => appendMissing missing (bindArch a d)
            | _ :: _ => missing
            end)
         architectures missing, e)
  end.

(** Modelled from the spec: [verify(candidate, architectures, context)] of
    4.3: the unsatisfied requirements of the candidates, without repetition,
    and an error when some relation is malformed. *)
Definition specVerify (candidate : list Package.t) (options : nat)
    (architectures : list string) (context : list Package.t)
  : list Dependency.t * option error :=
  fold_left
    (fun acc p => fold_left (verifyRelation architectures context p) (Package.Depends p) acc)
    candidate ([], None).

Definition packageKey (p : Package.t) : string :=
  (Package.Name p ++ " " ++ Package.Version p ++ " " ++ Package.Architecture p)%string.

(** Modelled from the spec: the package repository of section 6 resolving
    the identifiers of a snapshot. *)
Fixpoint specResolve (refs : list string) : list Package.t * option error :=
  match refs with
  | [] => ([], None)
  | k :: r =>
      match find (fun p => String.eqb (packageKey p) k) repository with
      | None => ([], Some ("NotFound: " ++ k)%string)
      | Some p =>
          let '(l, e) := specResolve r in
          (match e with None => p :: l | Some _ => [] end, e)
      end
  end.

(** Modelled from the spec: the snapshot registry of section 6. *)
Definition specByName (c : list Snapshot.t) (name : string) : Snapshot.t + error :=
  match find (fun s => String.eqb (Snapshot.Name s) name) c with
  | Some s => inl s
  | None => inr ("NotFound: " ++ name)%string
  end.

Definition specCollectionAdd (c : list Snapshot.t) (s : Snapshot.t)
  : list Snapshot.t * option error :=
  if existsb (fun x => String.eqb (Snapshot.Name x) (Snapshot.Name s)) c
  then (c, Some ("DuplicateName: " ++ Snapshot.Name s)%string)
  else (c ++ [s], None).

Definition specDeb : Deb := {|
  PackageList := list Package.t;
  SnapshotCollection := list Snapshot.t;
  NewPackageList := [];
  Add := specAdd;
  Remove := specRemove;
  Search := specSearch;
  PrepareIndex := fun l => l;
  Architectures := specArchitectures;
  VerifyDependencies := specVerify;
  ParseDependency := specParse;
  NewPackageListFromRefList := specResolve;
  NewPackageRefListFromPackageList := map packageKey;
  ByName := specByName;
  LoadComplete := fun _ s => inl s;
  CollectionAdd := specCollectionAdd;
  ErrCommandError := "command error"
|}.

End SpecModel.


(** ** Observations on the output and on the history *)

(** The architectures the outer loop started an iteration with, in order. *)
Definition archsOf (h : list Call) : list string :=
  flat_map (fun c => match c with CArch a => [a] | _ => [] end) h.

(** The expressions searched in the source list, in order. *)
Definition searchedOf (h : list Call) : list Dependency.t :=
  flat_map (fun c => match c with CSearchSource d => [d] | _ => [] end) h.

(** The errors returned by the dependency verifications, in order. *)
Definition verifiedOf (h : list Call) : list (option error) :=
  flat_map (fun c => match c with CVerify _ _ e => [e] | _ => [] end) h.

(** The packages reported as added, in order. *)
Definition addedOf (ms : list Message) : list Package.t :=
  flat_map (fun m => match m with MsgAdded p => [p] | _ => [] end) ms.

(** The packages reported as removed, in order. *)
Definition removedOf (ms : list Message) : list Package.t :=
  flat_map (fun m => match m with MsgRemoved p => [p] | _ => [] end) ms.

(** Two environments that differ at most by progress messages other than
    those about added and removed packages. *)
Definition sameButProgress `{D : Deb} (e e' : Env) : Prop :=
  collection e' = collection e
  /\ history e' = history e
  /\ addedOf (progress e') = addedOf (progress e)
  /\ removedOf (progress e') = removedOf (progress e).

(** The expressions searched in the destination list, in order. *)
Definition destSearchesOf (h : list Call) : list Dependency.t :=
  flat_map (fun c => match c with CSearchDest d => [d] | _ => [] end) h.

(** The packages handed to dependency verification, with the architecture,
    in order. *)
Definition verifiedPackagesOf (h : list Call) : list (Package.t * string) :=
  flat_map (fun c => match c with CVerify p a _ => [(p, a)] | _ => [] end) h.

(** The verifications that returned an error. *)
Definition failedOf (h : list Call) : list (Package.t * error) :=
  flat_map (fun c => match c with CVerify p _ (Some x) => [(p, x)] | _ => [] end) h.

(** The verification errors reported. *)
Definition reportedOf (ms : list Message) : list (Package.t * error) :=
  flat_map (fun m => match m with MsgVerifyError p x => [(p, x)] | _ => [] end) ms.

(** The expressions reported as unsatisfiable, in order. *)
Definition unsatisfiableOf (ms : list Message) : list Dependency.t :=
  flat_map (fun m => match m with MsgUnsatisfiable d _ => [d] | _ => [] end) ms.

(** The reported removals and additions applied, in order, to a list. *)
Definition replay `{D : Deb} (ms : list Message) (l : PackageList) : PackageList :=
  fold_left (fun l m => match m with
                        | MsgAdded p => Add l p
                        | MsgRemoved p => Remove l p
                        | _ => l
                        end) ms l.

(** The later state has printed [ms] and recorded [calls] since the earlier
    one. *)
Definition extends `{D : Deb} (st st' : Locals) (ms : list Message) (calls : list Call)
  : Prop :=
  progress (env st') = progress (env st) ++ ms
  /\ history (env st') = history (env st) ++ calls.

(** The later work list is the earlier one with new, pairwise different
    entries appended, none of which the earlier one had. *)
Definition grows (deps deps' : list Dependency.t) : Prop :=
  exists extra,
    deps' = deps ++ extra
    /\ NoDup extra
    /\ (forall d, In d extra -> ~ In d deps).

(** Lines 99-156: the body of the loop over the work list, for the entry
    [dep]; [closure] iterates it (see [closure_step]). *)
Definition loopBody `{D : Deb} (ctx : Context) (sourceSnapshot : Snapshot.t)
    (fuel : nat) (arch : string) (dep : Dependency.t)
    (dependencies : list Dependency.t) (st : Locals)
  : option (list Dependency.t * Locals) :=
  let searchResults := Search (sourcePackageList st) dep (allMatches ctx) in
  let st := record (CSearchSource dep) st in
  match searchResults with
  | [] => Some (dependencies, print (MsgUnsatisfiable dep sourceSnapshot) st)
  | _ :: _ =>
      match (if noRemove ctx then Some st else removeAll ctx fuel searchResults st) with
      | None => None
      | Some st =>
          let st := addAll searchResults st in
          if noDeps ctx then Some (dependencies, st)
          else Some (verifyAll ctx arch searchResults dependencies st)
      end
  end.

(** ** The dependency verifications of a run *)

(** Lines 133-140 as a list: the errors [VerifyDependencies] returns while
    the packages of [l] are added one by one to the candidate list [pL], the
    destination list being [destination]; each error with the package just
    added. *)
Fixpoint verificationErrors `{D : Deb} (ctx : Context) (arch : string)
    (pL : PackageList) (l : list Package.t) (destination : PackageList)
  : list (Package.t * error) :=
  match l with
  | [] => []
  | pkg :: rest =>
      match snd (VerifyDependencies (Add pL pkg) (DependencyOptions ctx) [arch] destination) with
      | Some x => [(pkg, x)]
      | None => []
      end ++ verificationErrors ctx arch (Add pL pkg) rest destination
  end.

(** One step of reading the history: the architecture being processed and
    the last expression, with its architecture, for which the search of the
    source list [src0] found something. *)
Definition scanCall `{D : Deb} (ctx : Context) (src0 : PackageList)
    (s : string * option (string * Dependency.t)) (c : Call)
  : string * option (string * Dependency.t) :=
  match c with
  | CArch a => (a, snd s)
  | CSearchSource d =>
      match Search src0 d (allMatches ctx) with
      | [] => s
      | _ :: _ => (fst s, Some (fst s, d))
      end
  | _ => s
  end.

(** The last work-list entry that had a match in the source list, with the
    architecture whose iteration searched it. *)
Definition lastMatch `{D : Deb} (ctx : Context) (src0 : PackageList) (calls : list Call)
  : option (string * Dependency.t) :=
  snd (fold_left (scanCall ctx src0) calls (""%string, None)).

(** What the last verification for that entry returns: the verifier run on
    all the packages found for it, against the destination list. *)
Definition lastVerificationError `{D : Deb} (ctx : Context) (src0 : PackageList)
    (calls : list Call) (destination : PackageList) (otherwise : option error)
  : option error :=
  match lastMatch ctx src0 calls with
  | None => otherwise
  | Some (arch, dep) =>
      snd (VerifyDependencies
             (fold_left Add (Search src0 dep (allMatches ctx)) NewPackageList)
             (DependencyOptions ctx) [arch] destination)
  end.

(** Between two entries of the work list, in a run that started with the
    source list [src0], the history [h0] and [err] equal to [e0]: [err] is what
    the verification for the last entry with a match returns against the
    destination list as it is now; [arch], when given, is the architecture
    being processed. *)
Definition settled `{D : Deb} (ctx : Context) (src0 : PackageList) (h0 : list Call)
    (e0 : option error) (arch : option string) (st : Locals) : Prop :=
  sourcePackageList st = src0
  /\ exists calls,
      history (env st) = h0 ++ calls
      /\ (forall a, arch = Some a ->
                    fst (fold_left (scanCall ctx src0) calls (""%string, None)) = a)
      /\ err st = lastVerificationError ctx src0 calls (packageList st) e0.

(** ** The same run with a verifier that reports no error *)

(** The implementation [D] whose dependency verification returns the same
    missing dependencies and never an error. *)
Definition silent (D : Deb) : Deb := {|
  PackageList := @PackageList D;
  SnapshotCollection := @SnapshotCollection D;
  NewPackageList := @NewPackageList D;
  Add := @Add D;
  Remove := @Remove D;
  Search := @Search D;
  PrepareIndex := @PrepareIndex D;
  Architectures := @Architectures D;
  VerifyDependencies := fun l options architectures sources =>
    (fst (@VerifyDependencies D l options architectures sources), None);
  ParseDependency := @ParseDependency D;
  NewPackageListFromRefList := @NewPackageListFromRefList D;
  NewPackageRefListFromPackageList := @NewPackageRefListFromPackageList D;
  ByName := @ByName D;
  LoadComplete := @LoadComplete D;
  CollectionAdd := @CollectionAdd D;
  ErrCommandError := @ErrCommandError D
|}.

Definition notVerifyError (m : Message) : bool :=
  match m with
  | MsgVerifyError _ _ => false
  | _ => true
  end.

Definition quietCall (c : Call) : Call :=
  match c with
  | CVerify p a _ => CVerify p a None
  | _ => c
  end.

(** A state without its verification errors: [err] is [nil], the error
    reports are dropped and the history shows successful verifications. *)
Definition quiet `{D : Deb} (st : @Locals D) : @Locals (silent D) :=
  {| packageList := packageList st;
     sourcePackageList := sourcePackageList st;
     err := None;
     env := {| collection := collection (env st);
               progress := filter notVerifyError (progress (env st));
               history := map quietCall (history (env st)) |} |}.

(** ** Example data *)

Definition exPkgA1 := Package.Build "pkgA" "1.0" "amd64" [].
Definition exPkgA2 := Package.Build "pkgA" "2.0" "amd64" ["pkgB (>= 1.0)"].
Definition exPkgB := Package.Build "pkgB" "1.5" "amd64" [].
Definition exPkgBad := Package.Build "pkgC" "0.1" "amd64" ["pkgB (1.0"].
Definition exRepo := [exPkgA1; exPkgA2; exPkgB; exPkgBad].
Definition exDeb : Deb := specDeb String.compare exRepo.
Definition exEmpty := Snapshot.Build "empty" [] [] "no packages".
Definition exOld := Snapshot.Build "old" ["pkgA 1.0 amd64"] [] "pkgA 1.0".
Definition exSrc :=
  Snapshot.Build "src" ["pkgA 2.0 amd64"; "pkgB 1.5 amd64"; "pkgC 0.1 amd64"] [] "backports".
Definition exBoth :=
  Snapshot.Build "both" ["pkgA 1.0 amd64"; "pkgA 2.0 amd64"] [] "two versions".
Definition exEnv : @Env exDeb :=
  {| collection := [exEmpty; exOld; exSrc; exBoth]; progress := []; history := [] |}.
Definition exCtx (dry deps remove all : bool) (archs : list string) : Context :=
  {| dryRun := dry; noDeps := deps; noRemove := remove; allMatches := all;
     ArchitecturesList := archs; DependencyOptions := 0 |}.
Definition exLocals (dst src : list Package.t) : @Locals exDeb :=
  {| packageList := dst; sourcePackageList := src; err := None; env := exEnv |}.

(** A snapshot whose reference the repository cannot resolve. *)
Definition exBroken := Snapshot.Build "broken" ["pkgZ 9 amd64"] [] "dangling".
Definition exEnvBroken : @Env exDeb :=
  {| collection := [exOld; exBroken]; progress := []; history := [] |}.

(** Two requests, the second for a package the source does not have. *)
Definition exInit : list Dependency.t :=
  [Dependency.Build "pkgA" "" None; Dependency.Build "pkgZ" "" None].
Definition exStart : @Locals exDeb := exLocals [exPkgA1] [exPkgA2; exPkgB; exPkgBad].

(** ** Facts about the loops, for any implementation of the interface *)

Section Preserved.
Context `{D : Deb}.
Variable ctx : Context.
Variable sourceSnapshot : Snapshot.t.
Variable fuel : nat.

(** A relation between the state before and after that every primitive step
    of the loops respects is respected by the loops. *)
Variable R : Locals -> Locals -> Prop.
Hypothesis R_refl : forall st, R st st.
Hypothesis R_trans : forall a b c, R a b -> R b c -> R a c.
Hypothesis R_print :
  forall m st, (forall p x, m <> MsgVerifyError p x) -> R st (print m st).
Hypothesis R_searchSource : forall d st, R st (record (CSearchSource d) st).
Hypothesis R_searchDest : forall d st, R st (record (CSearchDest d) st).
Hypothesis R_verify : forall pkg arch e st, R st (reportVerification pkg arch e st).
Hypothesis R_setPackageList : forall l st, R st (setPackageList l st).

Lemma removeFound_preserves pS st : R st (removeFound pS st).
Proof.
  unfold removeFound. revert st.
  induction pS as [|p pS IH]; intros st; simpl; [apply R_refl|].
  eapply R_trans; [|apply IH].
  eapply R_trans; [apply R_setPackageList|apply R_print; discriminate].
Qed.

Lemma removeLoop_preserves n pkg st st' :
  removeLoop ctx n pkg st = Some st' -> R st st'.
Proof.
  revert st. induction n as [|n IH]; intros st H; simpl in H; [discriminate|].
  destruct (Search (packageList st) (sameNameArch pkg) (allMatches ctx)) as [|p pS].
  - inversion H; subst. apply R_searchDest.
  - apply IH in H. eapply R_trans; [|exact H].
    eapply R_trans; [|apply removeFound_preserves].
    apply R_searchDest.
Qed.

Lemma removeAll_preserves l st st' :
  removeAll ctx fuel l st = Some st' -> R st st'.
Proof.
  revert st. induction l as [|pkg l IH]; intros st H; simpl in H.
  - inversion H; subst. apply R_refl.
  - destruct (removeLoop ctx fuel pkg st) as [st1|] eqn:E; [|discriminate].
    eapply R_trans; [eapply removeLoop_preserves; exact E|apply IH; exact H].
Qed.

Lemma addAll_preserves l st : R st (addAll l st).
Proof.
  unfold addAll. revert st.
  induction l as [|p l IH]; intros st; simpl; [apply R_refl|].
  eapply R_trans; [|apply IH].
  eapply R_trans; [apply R_setPackageList|apply R_print; discriminate].
Qed.

Lemma verifyOne_preserves arch pL deps st pkg :
  R st (snd (verifyOne ctx arch (pL, deps, st) pkg)).
Proof.
  unfold verifyOne.
  destruct (VerifyDependencies (Add pL pkg) (DependencyOptions ctx) [arch] (packageList st))
    as [missing e].
  simpl. apply R_verify.
Qed.

Lemma verifyAll_preserves arch l deps st :
  R st (snd (verifyAll ctx arch l deps st)).
Proof.
  unfold verifyAll. generalize (@NewPackageList D) as pL. revert deps st.
  induction l as [|pkg l IH]; intros deps st pL; cbn [fold_left]; [apply R_refl|].
  pose proof (verifyOne_preserves arch pL deps st pkg) as H1.
  destruct (verifyOne ctx arch (pL, deps, st) pkg) as [[pL1 deps1] st1].
  simpl in H1. eapply R_trans; [exact H1|apply IH].
Qed.

Lemma closure_preserves n arch i deps st deps' st' :
  closure ctx sourceSnapshot fuel n arch i deps st = Some (deps', st') -> R st st'.
Proof.
  revert i deps st. induction n as [|n IH]; intros i deps st H; simpl in H; [discriminate|].
  destruct (nth_error deps i) as [dep|]; [|inversion H; subst; apply R_refl].
  pose proof (R_searchSource dep st) as Hrec.
  destruct (Search (sourcePackageList st) dep (allMatches ctx)) as [|p ps] eqn:ES.
  - apply IH in H. eapply R_trans; [|exact H].
    eapply R_trans; [exact Hrec|apply R_print; discriminate].
  - match type of H with
    | match ?c with _ => _ end = _ => destruct c as [st1|] eqn:ER; [|discriminate]
    end.
    assert (H1 : R st st1).
    { destruct (noRemove ctx).
      - inversion ER; subst. exact Hrec.
      - eapply R_trans; [exact Hrec|eapply removeAll_preserves; exact ER]. }
    assert (H2 : R st (addAll (p :: ps) st1)).
    { eapply R_trans; [exact H1|apply addAll_preserves]. }
    destruct (noDeps ctx).
    + apply IH in H. eapply R_trans; eassumption.
    + pose proof (verifyAll_preserves arch (p :: ps) deps (addAll (p :: ps) st1)) as H3.
      destruct (verifyAll ctx arch (p :: ps) deps (addAll (p :: ps) st1)) as [deps2 st2].
      simpl in H3. apply IH in H.
      eapply R_trans; [exact H2|]. eapply R_trans; eassumption.
Qed.

End Preserved.

Section PreservedByPull.
Context `{D : Deb}.
Variable ctx : Context.
Variable sourceSnapshot : Snapshot.t.
Variable fuel : nat.
Variable R : Locals -> Locals -> Prop.
Hypothesis R_refl : forall st, R st st.
Hypothesis R_trans : forall a b c, R a b -> R b c -> R a c.
Hypothesis R_print :
  forall m st, (forall p x, m <> MsgVerifyError p x) -> R st (print m st).
Hypothesis R_arch : forall a st, R st (record (CArch a) st).
Hypothesis R_searchSource : forall d st, R st (record (CSearchSource d) st).
Hypothesis R_searchDest : forall d st, R st (record (CSearchDest d) st).
Hypothesis R_verify : forall pkg arch e st, R st (reportVerification pkg arch e st).
Hypothesis R_setPackageList : forall l st, R st (setPackageList l st).

Lemma pullArch_preserves init arch st deps' st' :
  pullArch ctx sourceSnapshot fuel init arch st = Some (deps', st') -> R st st'.
Proof.
  unfold pullArch. intros H.
  eapply R_trans; [apply (R_arch arch)|].
  eapply closure_preserves; eauto.
Qed.

Lemma performPull_preserves init archs st st' :
  performPull ctx sourceSnapshot fuel init archs st = Some st' -> R st st'.
Proof.
  revert st. induction archs as [|a archs IH]; intros st H; simpl in H.
  - inversion H; subst. apply R_refl.
  - destruct (pullArch ctx sourceSnapshot fuel init a st) as [[deps1 st1]|] eqn:E;
      [|discriminate].
    eapply R_trans; [eapply pullArch_preserves; exact E|apply IH; exact H].
Qed.

End PreservedByPull.

Ltac step_cases :=
  intros; unfold reportVerification;
  try match goal with
      | e : option error |- _ => destruct e
      end;
  simpl.

(** The loops leave the snapshot collection alone. *)
Lemma performPull_collection `{D : Deb} ctx src fuel init archs st st' :
  performPull ctx src fuel init archs st = Some st' ->
  collection (env st') = collection (env st).
Proof.
  apply (performPull_preserves ctx src fuel
           (fun a b => collection (env b) = collection (env a)));
    step_cases; congruence.
Qed.

(** C8: the loop over the architectures only reads the source package list:
    whatever the flags, the budget, the expressions and the architectures,
    the source list after the pull is the source list before it. *)
Theorem source_read_only `{D : Deb} ctx src fuel init archs st st' :
  performPull ctx src fuel init archs st = Some st' ->
  sourcePackageList st' = sourcePackageList st.
Proof.
  apply (performPull_preserves ctx src fuel
           (fun a b => sourcePackageList b = sourcePackageList a));
    step_cases; congruence.
Qed.

(** ** [sort.Strings] sorts *)

Lemma insertString_perm s l : Permutation (s :: l) (insertString s l).
Proof.
  induction l as [|x r IH]; simpl; [apply Permutation_refl|].
  destruct (String.leb s x); [apply Permutation_refl|].
  eapply Permutation_trans; [apply perm_swap|apply perm_skip, IH].
Qed.

Lemma sortStrings_perm l : Permutation l (sortStrings l).
Proof.
  induction l as [|x r IH]; simpl; [apply perm_nil|].
  eapply Permutation_trans; [apply perm_skip, IH|apply insertString_perm].
Qed.

Lemma insertString_hd a s l :
  stringLe a s -> HdRel stringLe a l -> HdRel stringLe a (insertString s l).
Proof.
  intros Has Hal. destruct l as [|x r]; simpl; [constructor; exact Has|].
  destruct (String.leb s x); constructor; [exact Has|].
  inversion Hal; assumption.
Qed.

Lemma insertString_sorted s l :
  Sorted stringLe l -> Sorted stringLe (insertString s l).
Proof.
  induction l as [|x r IH]; intros Hs; simpl.
  - repeat constructor.
  - destruct (String.leb s x) eqn:E.
    + constructor; [exact Hs|constructor; exact E].
    + inversion Hs as [|? ? Hr Hhd]; subst.
      constructor; [apply IH; exact Hr|].
      apply insertString_hd; [|exact Hhd].
      destruct (String.leb_total s x) as [H|H]; [congruence|exact H].
Qed.

Lemma sortStrings_sorted l : Sorted stringLe (sortStrings l).
Proof.
  induction l as [|x r IH]; simpl; [constructor|].
  apply insertString_sorted, IH.
Qed.

(** ** The architectures *)

Lemma archsOf_app a b : archsOf (a ++ b) = archsOf a ++ archsOf b.
Proof. unfold archsOf. apply flat_map_app. Qed.

Lemma closure_archs `{D : Deb} ctx src fuel n arch i deps st deps' st' :
  closure ctx src fuel n arch i deps st = Some (deps', st') ->
  archsOf (history (env st')) = archsOf (history (env st)).
Proof.
  apply (closure_preserves ctx src fuel
           (fun a b => archsOf (history (env b)) = archsOf (history (env a))));
    step_cases; try congruence; rewrite archsOf_app; apply app_nil_r.
Qed.

Lemma performPull_archs `{D : Deb} ctx src fuel init archs st st' :
  performPull ctx src fuel init archs st = Some st' ->
  archsOf (history (env st')) = archsOf (history (env st)) ++ archs.
Proof.
  revert st. induction archs as [|a archs IH]; intros st H; simpl in H.
  - inversion H; subst. symmetry. apply app_nil_r.
  - destruct (pullArch ctx src fuel init a st) as [[deps1 st1]|] eqn:E; [|discriminate].
    apply IH in H. rewrite H. unfold pullArch in E. apply closure_archs in E.
    rewrite E. simpl. rewrite archsOf_app. simpl. rewrite <- app_assoc. reflexivity.
Qed.

(** What loading leaves untouched. *)
Lemma load_frame `{D : Deb} args e l :
  load args e = inr l ->
  collection (env (locals l)) = collection e
  /\ history (env (locals l)) = history e
  /\ addedOf (progress (env (locals l))) = addedOf (progress e)
  /\ removedOf (progress (env (locals l))) = removedOf (progress e)
  /\ err (locals l) = None.
Proof.
  unfold load. intros H.
  repeat match type of H with
         | match ?c with _ => _ end = _ => destruct c; try discriminate
         end.
  inversion H; subst; simpl.
  unfold addedOf, removedOf. rewrite !flat_map_app. simpl. rewrite !app_nil_r.
  repeat split; reflexivity.
Qed.

Lemma finish_history `{D : Deb} ctx args p st :
  history (snd (finish ctx args p st)) = history (env st).
Proof.
  unfold finish. destruct (dryRun ctx); simpl; [reflexivity|].
  destruct (CollectionAdd _ _) as [c [x|]]; reflexivity.
Qed.

(** C5: the target architectures are the configured list when it is not
    empty and otherwise those of the destination package list without the
    source pseudo-architecture, sorted; when that list is empty the command
    returns an error having searched, removed and added nothing; otherwise
    the outer loop takes the architectures in that sorted order. *)
Theorem architectures_chosen_sorted `{D : Deb} ctx fuel args e l :
  load args e = inr l ->
  let given := match ArchitecturesList ctx with
               | [] => Architectures (packageList (locals l)) false
               | _ :: _ => ArchitecturesList ctx
               end in
  let archs := chooseArchitectures ctx (packageList (locals l)) in
  archs = sortStrings given
  /\ Permutation given archs
  /\ Sorted stringLe archs
  /\ (archs = [] ->
      aptlySnapshotPull ctx fuel args e =
        Some (Some "unable to determine list of architectures, please specify explicitly",
              env (locals l))
      /\ history (env (locals l)) = history e
      /\ collection (env (locals l)) = collection e
      /\ addedOf (progress (env (locals l))) = addedOf (progress e)
      /\ removedOf (progress (env (locals l))) = removedOf (progress e))
  /\ (forall p r e',
         prepare ctx args e = inr p ->
         aptlySnapshotPull ctx fuel args e = Some (r, e') ->
         architecturesList p = archs
         /\ archsOf (history e') = archsOf (history e) ++ archs).
Proof.
  intros Hl given archs.
  assert (Ha : archs = sortStrings given).
  { unfold archs, chooseArchitectures, given.
    destruct (ArchitecturesList ctx); reflexivity. }
  destruct (load_frame args e l Hl) as (Hc & Hh & Hadd & Hrem & _).
  split; [exact Ha|]. split; [rewrite Ha; apply sortStrings_perm|].
  split; [rewrite Ha; apply sortStrings_sorted|]. split.
  - intros Hnil. repeat split; try assumption.
    unfold aptlySnapshotPull, prepare. rewrite Hl. fold archs. rewrite Hnil. reflexivity.
  - intros p r e' Hp Hrun.
    unfold aptlySnapshotPull in Hrun. rewrite Hp in Hrun.
    unfold prepare in Hp. rewrite Hl in Hp. fold archs in Hp.
    destruct archs as [|a0 archs0] eqn:Earchs; [discriminate|].
    destruct (parseAll (skipn 3 args)) as [init|x]; [|discriminate].
    inversion Hp; subst p; clear Hp.
    cbn [loaded initialDependencies architecturesList] in Hrun. split; [reflexivity|].
    destruct (performPull ctx (source l) fuel init (a0 :: archs0) (locals l))
      as [st|] eqn:Ep; [|discriminate].
    inversion Hrun as [Hfin]. apply performPull_archs in Ep.
    pose proof (finish_history ctx args
                  {| loaded := l; initialDependencies := init;
                     architecturesList := a0 :: archs0 |} st) as Hf.
    rewrite Hfin in Hf. simpl in Hf. rewrite Hf, Ep, Hh. reflexivity.
Qed.

(** ** Errors found before the loop *)

Lemma say_same `{D : Deb} m e :
  (forall p, m <> MsgAdded p) -> (forall p, m <> MsgRemoved p) ->
  sameButProgress e (say m e).
Proof.
  intros Ha Hr. unfold sameButProgress, addedOf, removedOf. simpl.
  rewrite !flat_map_app. simpl.
  destruct m; try (rewrite !app_nil_r; repeat split; reflexivity).
  - exfalso. eapply Hr. reflexivity.
  - exfalso. eapply Ha. reflexivity.
Qed.

Lemma load_frame_inl `{D : Deb} args e y e1 :
  load args e = inl (y, e1) -> sameButProgress e e1.
Proof.
  unfold load. intros H.
  assert (Hrefl : sameButProgress e e) by (repeat split; reflexivity).
  repeat match type of H with
         | match ?c with _ => _ end = _ => destruct c; try discriminate
         end;
    inversion H; subst; try exact Hrefl;
    try (apply say_same; discriminate);
    unfold sameButProgress, addedOf, removedOf; simpl;
    rewrite !flat_map_app; simpl; rewrite !app_nil_r; repeat split; reflexivity.
Qed.

Lemma prepare_frame_inl `{D : Deb} ctx args e y e1 :
  prepare ctx args e = inl (y, e1) -> sameButProgress e e1.
Proof.
  unfold prepare. intros H.
  destruct (load args e) as [[y0 e0]|l] eqn:El.
  - inversion H; subst. eapply load_frame_inl; exact El.
  - destruct (load_frame args e l El) as (Hc & Hh & Ha & Hr & _).
    assert (Hs : sameButProgress e (env (locals l))) by (repeat split; assumption).
    destruct (chooseArchitectures ctx (packageList (locals l))); [inversion H; subst; exact Hs|].
    destruct (parseAll (skipn 3 args)); [discriminate|].
    inversion H; subst; exact Hs.
Qed.

Lemma parseAll_fails `{D : Deb} queries arg x :
  In arg queries -> snd (ParseDependency arg) = Some x ->
  exists y, parseAll queries = inr y.
Proof.
  induction queries as [|q qs IH]; intros Hin Hx; [contradiction|]. simpl.
  destruct (ParseDependency q) as [d [z|]] eqn:Eq; [eexists; reflexivity|].
  destruct Hin as [->|Hin]; [rewrite Eq in Hx; discriminate|].
  destruct (IH Hin Hx) as [y Hy]. rewrite Hy. eexists; reflexivity.
Qed.

Lemma parseAll_error `{D : Deb} queries y :
  parseAll queries = inr y ->
  exists good arg rest x,
    queries = good ++ arg :: rest
    /\ Forall (fun a => snd (ParseDependency a) = None) good
    /\ snd (ParseDependency arg) = Some x
    /\ y = Errorf "unable to parse argument: " x.
Proof.
  revert y. induction queries as [|q qs IH]; intros y H; simpl in H; [discriminate|].
  destruct (ParseDependency q) as [d [z|]] eqn:Eq.
  - inversion H; subst. exists [], q, qs, z. rewrite Eq. repeat split. constructor.
  - destruct (parseAll qs) as [ds|y0]; [discriminate|]. inversion H; subst.
    destruct (IH y eq_refl) as (good & arg & rest & x & -> & Hg & Hx & Hy).
    exists (q :: good), arg, rest, x. repeat split; try assumption.
    constructor; [rewrite Eq; reflexivity|exact Hg].
Qed.

(** C6: when some argument after the third does not parse, wherever it
    stands, the command returns an error without entering the loop (whatever
    the budget): the collection has no new snapshot, nothing was searched and
    no package was added or removed; once loading and the architectures
    succeeded, the error is that of the first argument that does not parse. *)
Theorem malformed_expression_aborts `{D : Deb} ctx fuel args e arg x :
  In arg (skipn 3 args) ->
  snd (ParseDependency arg) = Some x ->
  exists y e',
    aptlySnapshotPull ctx fuel args e = Some (Some y, e')
    /\ collection e' = collection e
    /\ history e' = history e
    /\ addedOf (progress e') = addedOf (progress e)
    /\ removedOf (progress e') = removedOf (progress e)
    /\ (forall l, load args e = inr l ->
                 chooseArchitectures ctx (packageList (locals l)) <> [] ->
                 exists good bad rest x',
                   skipn 3 args = good ++ bad :: rest
                   /\ Forall (fun a => snd (ParseDependency a) = None) good
                   /\ snd (ParseDependency bad) = Some x'
                   /\ y = Errorf "unable to parse argument: " x').
Proof.
  intros Hin Hx.
  destruct (parseAll_fails (skipn 3 args) arg x Hin Hx) as [z Hz].
  assert (Hp : exists y e', prepare ctx args e = inl (y, e')
            /\ (forall l, load args e = inr l ->
                   chooseArchitectures ctx (packageList (locals l)) <> [] -> y = z)).
  { unfold prepare. destruct (load args e) as [[y0 e0]|l] eqn:El.
    - exists y0, e0. split; [reflexivity|]. intros l Hl. discriminate.
    - destruct (chooseArchitectures ctx (packageList (locals l))) eqn:Ea.
      + eexists _, _. split; [reflexivity|]. intros l' Hl' Hne.
        inversion Hl'; subst l'. rewrite Ea in Hne. contradiction.
      + rewrite Hz. eexists _, _. split; [reflexivity|]. reflexivity. }
  destruct Hp as (y & e' & Hp & Hy).
  exists y, e'. unfold aptlySnapshotPull. rewrite Hp.
  destruct (prepare_frame_inl ctx args e y e' Hp) as (Hc & Hh & Ha & Hr).
  repeat (split; [first [reflexivity | assumption]|]).
  intros l Hl Hne. rewrite (Hy l Hl Hne). apply parseAll_error. exact Hz.
Qed.

(** ** The end of the command *)

Lemma last_nonempty {A} (a : A) l d d' : last (a :: l) d = last (a :: l) d'.
Proof.
  revert a. induction l as [|b l IH]; intros a; [reflexivity|].
  change (last (b :: l) d = last (b :: l) d'). apply IH.
Qed.

Lemma last_append {A} (l1 l2 : list A) d : last (l1 ++ l2) d = last l2 (last l1 d).
Proof.
  revert d. induction l1 as [|a l1 IH]; intros d; [reflexivity|].
  destruct l1 as [|b l1].
  - destruct l2 as [|c l2]; [reflexivity|].
    change (last (c :: l2) d = last (c :: l2) a). apply last_nonempty.
  - change (last ((b :: l1) ++ l2) d = last l2 (last (b :: l1) d)). apply IH.
Qed.

Lemma verifiedOf_app a b : verifiedOf (a ++ b) = verifiedOf a ++ verifiedOf b.
Proof. unfold verifiedOf. apply flat_map_app. Qed.

(** The shared [err] holds what the last verification of the loop returned. *)
Lemma performPull_err `{D : Deb} ctx src fuel init archs st st' :
  performPull ctx src fuel init archs st = Some st' ->
  exists calls,
    history (env st') = history (env st) ++ calls
    /\ err st' = last (verifiedOf calls) (err st).
Proof.
  apply (performPull_preserves ctx src fuel
           (fun a b => exists calls,
                history (env b) = history (env a) ++ calls
                /\ err b = last (verifiedOf calls) (err a))).
  - intros a. exists []. rewrite app_nil_r. split; reflexivity.
  - intros a b c (c1 & H1 & E1) (c2 & H2 & E2). exists (c1 ++ c2).
    rewrite H2, H1, app_assoc, E2, E1, verifiedOf_app, last_append.
    split; reflexivity.
  - intros m a _. exists []. simpl. rewrite app_nil_r. split; reflexivity.
  - intros a0 a. exists [CArch a0]. split; reflexivity.
  - intros d a. exists [CSearchSource d]. split; reflexivity.
  - intros d a. exists [CSearchDest d]. split; reflexivity.
  - intros pkg arch e a. exists [CVerify pkg arch e]. destruct e; split; reflexivity.
  - intros l a. exists []. simpl. rewrite app_nil_r. split; reflexivity.
Qed.

Lemma performPull_progress `{D : Deb} ctx src fuel init archs st st' :
  performPull ctx src fuel init archs st = Some st' ->
  exists ms, progress (env st') = progress (env st) ++ ms.
Proof.
  apply (performPull_preserves ctx src fuel
           (fun a b => exists ms, progress (env b) = progress (env a) ++ ms)).
  - intros a. exists []. rewrite app_nil_r. reflexivity.
  - intros a b c (m1 & H1) (m2 & H2). exists (m1 ++ m2).
    rewrite H2, H1, app_assoc. reflexivity.
  - intros m a _. exists [m]. reflexivity.
  - intros a0 a. exists []. simpl. rewrite app_nil_r. reflexivity.
  - intros d a. exists []. simpl. rewrite app_nil_r. reflexivity.
  - intros d a. exists []. simpl. rewrite app_nil_r. reflexivity.
  - intros pkg arch [x|] a; [exists [MsgVerifyError pkg x]|exists []]; simpl;
      rewrite ?app_nil_r; reflexivity.
  - intros l a. exists []. simpl. rewrite app_nil_r. reflexivity.
Qed.

Lemma prepare_loaded `{D : Deb} ctx args e p :
  prepare ctx args e = inr p -> load args e = inr (loaded p).
Proof.
  unfold prepare. intros H. destruct (load args e) as [x|l]; [discriminate|].
  destruct (chooseArchitectures ctx (packageList (locals l))); [discriminate|].
  destruct (parseAll (skipn 3 args)); [|discriminate].
  inversion H; subst. reflexivity.
Qed.

(** C7: once the loop has completed, without dry-run the command hands to
    the collection a new snapshot named by the third argument, built from the
    resulting destination package list, with the destination and the source
    snapshots, in that order, as parents, and reports the creation when the
    collection accepts it; with dry-run the collection is left as it was and
    the only further output is the dry-run notice. *)
Theorem snapshot_created_unless_dry_run `{D : Deb} ctx fuel args e p st :
  prepare ctx args e = inr p ->
  performPull ctx (source (loaded p)) fuel (initialDependencies p)
              (architecturesList p) (locals (loaded p)) = Some st ->
  exists r e',
    aptlySnapshotPull ctx fuel args e = Some (r, e')
    /\ (dryRun ctx = false ->
        let destination := newDestination args p st in
        Snapshot.Name destination = nth 2 args ""%string
        /\ Snapshot.Parents destination =
             [Snapshot.Name (snapshot (loaded p)); Snapshot.Name (source (loaded p))]
        /\ Snapshot.RefList destination = NewPackageRefListFromPackageList (packageList st)
        /\ collection e' = fst (CollectionAdd (collection e) destination)
        /\ (snd (CollectionAdd (collection e) destination) = None ->
             r = None
             /\ progress e' = progress (env st) ++ [MsgCreated (nth 2 args ""%string)]))
    /\ (dryRun ctx = true ->
        collection e' = collection e
        /\ progress e' = progress (env st) ++ [MsgDryRun]).
Proof.
  intros Hp Hrun.
  pose proof (performPull_collection _ _ _ _ _ _ _ Hrun) as Hc.
  destruct (load_frame args e (loaded p) (prepare_loaded ctx args e p Hp)) as (Hc0 & _).
  rewrite Hc0 in Hc.
  unfold aptlySnapshotPull. rewrite Hp, Hrun. unfold finish.
  destruct (dryRun ctx) eqn:Edry.
  - eexists _, _. split; [reflexivity|]. split; [discriminate|].
    intros _. simpl. split; [exact Hc|reflexivity].
  - rewrite Hc.
    destruct (CollectionAdd (collection e) (newDestination args p st)) as [c [x|]] eqn:EA;
      (eexists _, _; split; [reflexivity|]; split; [|discriminate]);
      intros _; simpl; repeat split; try discriminate.
Qed.


(** ** The theorems at concrete inputs *)

Lemma architectures_chosen_sorted_witness :
  exists l,
    load (D := exDeb) ["empty"; "src"; "new"; "pkgA"] exEnv = inr l
    /\ aptlySnapshotPull (exCtx false false false false []) 5
         ["empty"; "src"; "new"; "pkgA"] exEnv
       = Some (Some "unable to determine list of architectures, please specify explicitly",
               env (locals l)).
Proof.
  eexists. split; [vm_compute; reflexivity|].
  eapply (architectures_chosen_sorted (exCtx false false false false []) 5
            ["empty"; "src"; "new"; "pkgA"] exEnv).
  - vm_compute. reflexivity.
  - vm_compute. reflexivity.
Defined.

Lemma source_read_only_witness :
  exists st',
    performPull (D := exDeb) (exCtx false false false false []) exSrc 5
      [Dependency.Build "pkgA" "" None] ["amd64"; "i386"]
      (exLocals [exPkgA1] [exPkgA2; exPkgB]) = Some st'
    /\ sourcePackageList st' = sourcePackageList (exLocals [exPkgA1] [exPkgA2; exPkgB]).
Proof.
  eexists. split; [vm_compute; reflexivity|].
  eapply (source_read_only (exCtx false false false false []) exSrc 5
            [Dependency.Build "pkgA" "" None] ["amd64"; "i386"]).
  vm_compute. reflexivity.
Defined.

Lemma malformed_expression_aborts_witness :
  exists y e',
    aptlySnapshotPull (D := exDeb) (exCtx false false false false ["amd64"]) 0
      ["old"; "src"; "new"; "pkgA (>= 1.0)"; "pkgB (1.0"; "pkgC"] exEnv = Some (Some y, e')
    /\ collection e' = collection exEnv.
Proof.
  destruct (malformed_expression_aborts (D := exDeb)
              (exCtx false false false false ["amd64"]) 0
              ["old"; "src"; "new"; "pkgA (>= 1.0)"; "pkgB (1.0"; "pkgC"] exEnv
              "pkgB (1.0" "MalformedDependency: pkgB (1.0")
    as (y & e' & Hrun & Hc & _).
  - simpl. right. left. reflexivity.
  - vm_compute. reflexivity.
  - exists y, e'. split; assumption.
Defined.

Lemma snapshot_created_unless_dry_run_witness :
  exists p st,
    prepare (D := exDeb) (exCtx false false false false ["amd64"])
            ["old"; "src"; "new"; "pkgA"] exEnv = inr p
    /\ performPull (exCtx false false false false ["amd64"]) (source (loaded p)) 5
         (initialDependencies p) (architecturesList p) (locals (loaded p)) = Some st
    /\ exists r e',
        aptlySnapshotPull (exCtx false false false false ["amd64"]) 5
          ["old"; "src"; "new"; "pkgA"] exEnv = Some (r, e')
        /\ Snapshot.Parents (newDestination ["old"; "src"; "new"; "pkgA"] p st)
           = [Snapshot.Name (snapshot (loaded p)); Snapshot.Name (source (loaded p))]
        /\ collection e'
           = fst (CollectionAdd (collection exEnv)
                    (newDestination ["old"; "src"; "new"; "pkgA"] p st)).
Proof.
  eexists. eexists. split; [vm_compute; reflexivity|].
  split; [vm_compute; reflexivity|].
  edestruct (snapshot_created_unless_dry_run (D := exDeb)
               (exCtx false false false false ["amd64"]) 5
               ["old"; "src"; "new"; "pkgA"] exEnv)
    as (r & e' & Hrun & Hcreate & _).
  - vm_compute. reflexivity.
  - vm_compute. reflexivity.
  - exists r, e'. split; [exact Hrun|].
    destruct (Hcreate eq_refl) as (_ & Hparents & _ & Hcoll & _).
    split; [exact Hparents|exact Hcoll].
Defined.

(** ** Errors of the loading phase and of the final step *)

(** X1: fewer than four arguments: the usage text is printed and the command
    returns [commander.ErrCommandError] without looking anything up. *)
Theorem too_few_arguments `{D : Deb} ctx fuel args e :
  List.length args < 4 ->
  aptlySnapshotPull ctx fuel args e = Some (Some ErrCommandError, say MsgUsage e).
Proof.
  intros H. unfold aptlySnapshotPull, prepare, load.
  destruct args as [|a [|b [|c [|d r]]]]; try reflexivity.
  simpl in H. lia.
Qed.

(** Loading succeeds only with four arguments or more. *)
Lemma load_enough_arguments `{D : Deb} args e l :
  load args e = inr l -> 4 <= List.length args.
Proof.
  unfold load. destruct args as [|a [|b [|c [|d r]]]]; try discriminate.
  intros _. simpl. lia.
Qed.

(** X2: a snapshot that cannot be found or completed, the destination being
    looked up before the source: the command returns that error behind
    "unable to pull: " and prints nothing. *)
Theorem snapshot_lookup_failure `{D : Deb} ctx fuel name sourceName dest q qs e x :
  ByName (collection e) name = inr x
  \/ (exists s, ByName (collection e) name = inl s
                /\ LoadComplete (collection e) s = inr x)
  \/ (exists s s', ByName (collection e) name = inl s
                   /\ LoadComplete (collection e) s = inl s'
                   /\ ByName (collection e) sourceName = inr x)
  \/ (exists s s' t, ByName (collection e) name = inl s
                     /\ LoadComplete (collection e) s = inl s'
                     /\ ByName (collection e) sourceName = inl t
                     /\ LoadComplete (collection e) t = inr x) ->
  aptlySnapshotPull ctx fuel (name :: sourceName :: dest :: q :: qs) e
  = Some (Some (Errorf "unable to pull: " x), e).
Proof.
  unfold aptlySnapshotPull, prepare, load.
  intros [H|[(s & H1 & H2)|[(s & s' & H1 & H2 & H3)|(s & s' & t & H1 & H2 & H3 & H4)]]].
  - rewrite H. reflexivity.
  - rewrite H1, H2. reflexivity.
  - rewrite H1, H2, H3. reflexivity.
  - rewrite H1, H2, H3, H4. reflexivity.
Qed.

(** X3: a package list that cannot be built from the references of one of the
    two snapshots, the destination first: the command returns that error
    behind "unable to load packages: ", having printed the plan and the
    number of references of both snapshots and nothing else. *)
Theorem package_list_load_failure `{D : Deb} ctx fuel name sourceName dest q qs e
    snapshot0 snapshot source0 source x :
  ByName (collection e) name = inl snapshot0 ->
  LoadComplete (collection e) snapshot0 = inl snapshot ->
  ByName (collection e) sourceName = inl source0 ->
  LoadComplete (collection e) source0 = inl source ->
  snd (NewPackageListFromRefList (Snapshot.RefList snapshot)) = Some x
  \/ (snd (NewPackageListFromRefList (Snapshot.RefList snapshot)) = None
      /\ snd (NewPackageListFromRefList (Snapshot.RefList source)) = Some x) ->
  aptlySnapshotPull ctx fuel (name :: sourceName :: dest :: q :: qs) e
  = Some (Some (Errorf "unable to load packages: " x),
          say (MsgLoading (List.length (Snapshot.RefList snapshot)
                           + List.length (Snapshot.RefList source)))
              (say (MsgPlan snapshot source dest) e)).
Proof.
  intros H1 H2 H3 H4 H.
  unfold aptlySnapshotPull, prepare, load. rewrite H1, H2, H3, H4.
  destruct (NewPackageListFromRefList (Snapshot.RefList snapshot)) as [pl [y|]];
    destruct (NewPackageListFromRefList (Snapshot.RefList source)) as [spl [z|]];
    simpl in H; destruct H as [H|[H H']]; try discriminate;
    inversion H; subst; try reflexivity.
  inversion H'; subst. reflexivity.
Qed.

(** X4: without dry-run, when the collection refuses the new snapshot after a
    completed loop, the command returns that error behind "unable to create
    snapshot: " and prints neither the success text nor anything else. *)
Theorem snapshot_creation_failure `{D : Deb} ctx fuel args e p st x :
  prepare ctx args e = inr p ->
  performPull ctx (source (loaded p)) fuel (initialDependencies p)
              (architecturesList p) (locals (loaded p)) = Some st ->
  dryRun ctx = false ->
  snd (CollectionAdd (collection e) (newDestination args p st)) = Some x ->
  exists e',
    aptlySnapshotPull ctx fuel args e
    = Some (Some (Errorf "unable to create snapshot: " x), e')
    /\ progress e' = progress (env st)
    /\ history e' = history (env st)
    /\ collection e' = fst (CollectionAdd (collection e) (newDestination args p st)).
Proof.
  intros Hp Hrun Hdry Hadd.
  pose proof (performPull_collection _ _ _ _ _ _ _ Hrun) as Hc.
  destruct (load_frame args e (loaded p) (prepare_loaded ctx args e p Hp)) as (Hc0 & _).
  rewrite Hc0 in Hc.
  unfold aptlySnapshotPull. rewrite Hp, Hrun. unfold finish. rewrite Hdry, Hc.
  destruct (CollectionAdd (collection e) (newDestination args p st)) as [c [y|]];
    simpl in Hadd; [|discriminate].
  inversion Hadd; subst. eexists. split; [reflexivity|]. repeat split.
Qed.

(** ** The loop as an iteration of its body *)

Lemma closure_step `{D : Deb} ctx src fuel n arch i deps st :
  closure ctx src fuel (S n) arch i deps st =
  match nth_error deps i with
  | None => Some (deps, st)
  | Some dep =>
      match loopBody ctx src fuel arch dep deps st with
      | None => None
      | Some (deps1, st1) => closure ctx src fuel n arch (S i) deps1 st1
      end
  end.
Proof.
  simpl. unfold loopBody. destruct (nth_error deps i) as [dep|]; [|reflexivity].
  destruct (Search (sourcePackageList st) dep (allMatches ctx)) as [|p ps]; [reflexivity|].
  destruct (if noRemove ctx then _ else _) as [st1|]; [|reflexivity].
  destruct (noDeps ctx); [reflexivity|].
  destruct (verifyAll ctx arch (p :: ps) deps (addAll (p :: ps) st1)); reflexivity.
Qed.

(** An invariant of the body holds when the loop ends, at an index past the
    end of the final list. *)
Lemma closure_invariant `{D : Deb} ctx src fuel arch
    (P : nat -> list Dependency.t -> Locals -> Prop) :
  (forall i deps st dep deps1 st1,
      nth_error deps i = Some dep ->
      loopBody ctx src fuel arch dep deps st = Some (deps1, st1) ->
      P i deps st -> P (S i) deps1 st1) ->
  forall n i deps st deps' st',
    closure ctx src fuel n arch i deps st = Some (deps', st') ->
    P i deps st ->
    exists j, List.length deps' <= j /\ P j deps' st'.
Proof.
  intros Hbody. induction n as [|n IH]; intros i deps st deps' st' H HP;
    [discriminate|].
  rewrite closure_step in H.
  destruct (nth_error deps i) as [dep|] eqn:En.
  - destruct (loopBody ctx src fuel arch dep deps st) as [[deps1 st1]|] eqn:Eb;
      [|discriminate].
    eapply IH; [exact H|]. eapply Hbody; eassumption.
  - inversion H; subst. exists i. split; [|exact HP].
    apply nth_error_None. exact En.
Qed.

Section Steps.
Context `{D : Deb}.
Variable ctx : Context.
Variable sourceSnapshot : Snapshot.t.
Variable fuel : nat.

(** A relation between an earlier and a later state that holds across every
    step the loops can take under the flags of [ctx] holds across the
    loops. *)
Variable R : Locals -> Locals -> Prop.
Hypothesis R_refl : forall st, R st st.
Hypothesis R_trans : forall a b c, R a b -> R b c -> R a c.
Hypothesis R_arch : forall a st, R st (record (CArch a) st).
Hypothesis R_searchSource : forall d st, R st (record (CSearchSource d) st).
Hypothesis R_unsatisfiable :
  forall d st, R st (print (MsgUnsatisfiable d sourceSnapshot) st).
Hypothesis R_searchDest :
  noRemove ctx = false -> forall d st, R st (record (CSearchDest d) st).
Hypothesis R_removed :
  noRemove ctx = false ->
  forall p st, R st (print (MsgRemoved p) (setPackageList (Remove (packageList st) p) st)).
Hypothesis R_added :
  forall p st, R st (print (MsgAdded p) (setPackageList (Add (packageList st) p) st)).
Hypothesis R_verify :
  noDeps ctx = false -> forall pkg arch e st, R st (reportVerification pkg arch e st).

Lemma removeFound_steps pS st :
  noRemove ctx = false -> R st (removeFound pS st).
Proof.
  intros Hf. unfold removeFound. revert st.
  induction pS as [|p pS IH]; intros st; simpl; [apply R_refl|].
  eapply R_trans; [apply R_removed; exact Hf|apply IH].
Qed.

Lemma removeLoop_steps n pkg st st' :
  noRemove ctx = false -> removeLoop ctx n pkg st = Some st' -> R st st'.
Proof.
  intros Hf. revert st. induction n as [|n IH]; intros st H; simpl in H; [discriminate|].
  destruct (Search (packageList st) (sameNameArch pkg) (allMatches ctx)) as [|p pS].
  - inversion H; subst. apply R_searchDest. exact Hf.
  - apply IH in H. eapply R_trans; [|exact H].
    eapply R_trans; [apply R_searchDest; exact Hf|apply removeFound_steps; exact Hf].
Qed.

Lemma removeAll_steps l st st' :
  noRemove ctx = false -> removeAll ctx fuel l st = Some st' -> R st st'.
Proof.
  intros Hf. revert st. induction l as [|pkg l IH]; intros st H; simpl in H.
  - inversion H; subst. apply R_refl.
  - destruct (removeLoop ctx fuel pkg st) as [st1|] eqn:E; [|discriminate].
    eapply R_trans; [eapply removeLoop_steps; eassumption|apply IH; exact H].
Qed.

Lemma addAll_steps l st : R st (addAll l st).
Proof.
  unfold addAll. revert st.
  induction l as [|p l IH]; intros st; simpl; [apply R_refl|].
  eapply R_trans; [apply R_added|apply IH].
Qed.

Lemma verifyAll_steps arch l deps st :
  noDeps ctx = false -> R st (snd (verifyAll ctx arch l deps st)).
Proof.
  intros Hf. unfold verifyAll. generalize (@NewPackageList D) as pL. revert deps st.
  induction l as [|pkg l IH]; intros deps st pL; cbn [fold_left]; [apply R_refl|].
  unfold verifyOne at 2.
  destruct (VerifyDependencies (Add pL pkg) (DependencyOptions ctx) [arch] (packageList st))
    as [missing e].
  eapply R_trans; [apply (R_verify Hf pkg arch e st)|apply IH].
Qed.

Lemma loopBody_steps arch dep deps st deps1 st1 :
  loopBody ctx sourceSnapshot fuel arch dep deps st = Some (deps1, st1) -> R st st1.
Proof.
  unfold loopBody. intros H.
  pose proof (R_searchSource dep st) as Hrec.
  assert (Hrm : noRemove ctx = true \/ noRemove ctx = false)
    by (destruct (noRemove ctx); auto).
  assert (Hdeps : noDeps ctx = true \/ noDeps ctx = false)
    by (destruct (noDeps ctx); auto).
  destruct (Search (sourcePackageList st) dep (allMatches ctx)) as [|p ps].
  - injection H as <- <-. eapply R_trans; [exact Hrec|apply R_unsatisfiable].
  - assert (Hst : exists st2,
               (if noRemove ctx then Some (record (CSearchSource dep) st)
                else removeAll ctx fuel (p :: ps) (record (CSearchSource dep) st))
               = Some st2 /\ R st st2).
    { destruct Hrm as [Erm|Erm]; rewrite Erm in H |- *.
      - eexists. split; [reflexivity|exact Hrec].
      - destruct (removeAll ctx fuel (p :: ps) (record (CSearchSource dep) st))
          as [st2|] eqn:Er; [|discriminate].
        exists st2. split; [reflexivity|].
        eapply R_trans; [exact Hrec|eapply removeAll_steps; eassumption]. }
    destruct Hst as (st2 & Est & Hst). rewrite Est in H.
    destruct Hdeps as [Edeps|Edeps]; rewrite Edeps in H.
    + injection H as <- <-. eapply R_trans; [exact Hst|apply (addAll_steps (p :: ps))].
    + assert (Hv : verifyAll ctx arch (p :: ps) deps (addAll (p :: ps) st2) = (deps1, st1))
        by (injection H as Hv'; exact Hv').
      eapply R_trans; [exact Hst|].
      eapply R_trans; [apply (addAll_steps (p :: ps))|].
      pose proof (verifyAll_steps arch (p :: ps) deps (addAll (p :: ps) st2) Edeps) as Hs.
      rewrite Hv in Hs. exact Hs.
Qed.

Lemma closure_steps n arch i deps st deps' st' :
  closure ctx sourceSnapshot fuel n arch i deps st = Some (deps', st') -> R st st'.
Proof.
  revert i deps st. induction n as [|n IH]; intros i deps st H; [discriminate|].
  rewrite closure_step in H.
  destruct (nth_error deps i) as [dep|]; [|inversion H; subst; apply R_refl].
  destruct (loopBody ctx sourceSnapshot fuel arch dep deps st) as [[deps1 st1]|] eqn:Eb;
    [|discriminate].
  eapply R_trans; [eapply loopBody_steps; exact Eb|eapply IH; exact H].
Qed.

Lemma pullArch_steps init arch st deps' st' :
  pullArch ctx sourceSnapshot fuel init arch st = Some (deps', st') -> R st st'.
Proof.
  unfold pullArch. intros H.
  eapply R_trans; [apply (R_arch arch)|eapply closure_steps; exact H].
Qed.

Lemma performPull_steps init archs st st' :
  performPull ctx sourceSnapshot fuel init archs st = Some st' -> R st st'.
Proof.
  revert st. induction archs as [|a archs IH]; intros st H; simpl in H.
  - inversion H; subst. apply R_refl.
  - destruct (pullArch ctx sourceSnapshot fuel init a st) as [[deps1 st1]|] eqn:E;
      [|discriminate].
    eapply R_trans; [eapply pullArch_steps; exact E|apply IH; exact H].
Qed.

End Steps.

(** ** What the reports and the history say about a run *)

Lemma extends_refl `{D : Deb} (st : Locals) : extends st st [] [].
Proof. unfold extends. rewrite !app_nil_r. split; reflexivity. Qed.

Lemma extends_trans `{D : Deb} (a b c : Locals) m1 c1 m2 c2 :
  extends a b m1 c1 -> extends b c m2 c2 -> extends a c (m1 ++ m2) (c1 ++ c2).
Proof.
  unfold extends. intros [H1 H2] [H3 H4]. rewrite H3, H4, H1, H2, !app_assoc.
  split; reflexivity.
Qed.

Lemma extends_print `{D : Deb} m (st : Locals) : extends st (print m st) [m] [].
Proof. unfold extends. simpl. rewrite app_nil_r. split; reflexivity. Qed.

Lemma extends_record `{D : Deb} c (st : Locals) : extends st (record c st) [] [c].
Proof. unfold extends. simpl. rewrite app_nil_r. split; reflexivity. Qed.

Lemma extends_changed `{D : Deb} m l (st : Locals) :
  extends st (print m (setPackageList l st)) [m] [].
Proof. unfold extends. simpl. rewrite app_nil_r. split; reflexivity. Qed.

Lemma extends_verify `{D : Deb} pkg arch e (st : Locals) :
  extends st (reportVerification pkg arch e st)
          (match e with Some x => [MsgVerifyError pkg x] | None => [] end)
          [CVerify pkg arch e].
Proof.
  unfold extends, reportVerification. destruct e; simpl; rewrite ?app_nil_r;
    split; reflexivity.
Qed.

Lemma replay_app `{D : Deb} m1 m2 (l : PackageList) :
  replay (m1 ++ m2) l = replay m2 (replay m1 l).
Proof. unfold replay. apply fold_left_app. Qed.

Ltac observe :=
  unfold addedOf, removedOf, reportedOf, unsatisfiableOf, searchedOf, destSearchesOf,
    verifiedOf, verifiedPackagesOf, failedOf, archsOf in *;
  rewrite ?flat_map_app in *; simpl in *; rewrite ?app_nil_r in *.

(** X6: the reports are a complete log of what happens to the destination list:
    applying, in order, the reported removals and additions to the list the
    pull started with gives the list it ends with. *)
Theorem reports_replay_to_destination `{D : Deb} ctx src fuel init archs st st' :
  performPull ctx src fuel init archs st = Some st' ->
  exists ms,
    progress (env st') = progress (env st) ++ ms
    /\ packageList st' = replay ms (packageList st).
Proof.
  apply (performPull_steps ctx src fuel
           (fun a b => exists ms,
                progress (env b) = progress (env a) ++ ms
                /\ packageList b = replay ms (packageList a))).
  - intros a. exists []. rewrite app_nil_r. split; reflexivity.
  - intros a b c (m1 & H1 & P1) (m2 & H2 & P2). exists (m1 ++ m2).
    rewrite H2, H1, app_assoc, P2, P1, replay_app. split; reflexivity.
  - intros a0 a. exists []. simpl. rewrite app_nil_r. split; reflexivity.
  - intros d a. exists []. simpl. rewrite app_nil_r. split; reflexivity.
  - intros d a. exists [MsgUnsatisfiable d src]. split; reflexivity.
  - intros _ d a. exists []. simpl. rewrite app_nil_r. split; reflexivity.
  - intros _ p a. exists [MsgRemoved p]. split; reflexivity.
  - intros p a. exists [MsgAdded p]. split; reflexivity.
  - intros _ pkg arch [x|] a; [exists [MsgVerifyError pkg x]|exists []];
      simpl; rewrite ?app_nil_r; split; reflexivity.
Qed.

(** X7: with no-remove the destination list is never searched and nothing is
    removed from it: it ends as the list it started as with the reported
    additions made in order. *)
Theorem no_remove_only_adds `{D : Deb} ctx src fuel init archs st st' :
  noRemove ctx = true ->
  performPull ctx src fuel init archs st = Some st' ->
  exists ms calls,
    extends st st' ms calls
    /\ removedOf ms = []
    /\ destSearchesOf calls = []
    /\ packageList st' = fold_left Add (addedOf ms) (packageList st).
Proof.
  intros Hflag.
  apply (performPull_steps ctx src fuel
           (fun a b => exists ms calls,
                extends a b ms calls
                /\ removedOf ms = []
                /\ destSearchesOf calls = []
                /\ packageList b = fold_left Add (addedOf ms) (packageList a))).
  - intros a. exists [], []. split; [apply extends_refl|]. repeat split.
  - intros a b c (m1 & c1 & E1 & R1 & S1 & P1) (m2 & c2 & E2 & R2 & S2 & P2).
    exists (m1 ++ m2), (c1 ++ c2). split; [eapply extends_trans; eassumption|].
    rewrite P2, P1. observe. rewrite R1, R2, S1, S2, fold_left_app.
    repeat split.
  - intros a0 a. exists [], [CArch a0]. split; [apply extends_record|]. repeat split.
  - intros d a. exists [], [CSearchSource d]. split; [apply extends_record|]. repeat split.
  - intros d a. exists [MsgUnsatisfiable d src], []. split; [apply extends_print|].
    repeat split.
  - intros Hf. rewrite Hflag in Hf. discriminate.
  - intros Hf. rewrite Hflag in Hf. discriminate.
  - intros p a. exists [MsgAdded p], []. split; [apply extends_changed|]. repeat split.
  - intros _ pkg arch e a. eexists _, _. split; [apply extends_verify|].
    destruct e; repeat split.
Qed.

(** X8: with no-deps no dependency is verified, no verification error is
    reported and the shared [err] keeps its value. *)
Theorem no_deps_verifies_nothing `{D : Deb} ctx src fuel init archs st st' :
  noDeps ctx = true ->
  performPull ctx src fuel init archs st = Some st' ->
  err st' = err st
  /\ exists ms calls,
      extends st st' ms calls
      /\ verifiedPackagesOf calls = []
      /\ reportedOf ms = [].
Proof.
  intros Hflag.
  apply (performPull_steps ctx src fuel
           (fun a b => err b = err a
                       /\ exists ms calls,
                           extends a b ms calls
                           /\ verifiedPackagesOf calls = []
                           /\ reportedOf ms = [])).
  - intros a. split; [reflexivity|]. exists [], []. split; [apply extends_refl|].
    repeat split.
  - intros a b c (E1 & m1 & c1 & X1 & V1 & R1) (E2 & m2 & c2 & X2 & V2 & R2).
    split; [congruence|].
    exists (m1 ++ m2), (c1 ++ c2). split; [eapply extends_trans; eassumption|].
    observe. rewrite V1, V2, R1, R2. repeat split.
  - intros a0 a. split; [reflexivity|].
    exists [], [CArch a0]. split; [apply extends_record|]. repeat split.
  - intros d a. split; [reflexivity|].
    exists [], [CSearchSource d]. split; [apply extends_record|]. repeat split.
  - intros d a. split; [reflexivity|].
    exists [MsgUnsatisfiable d src], []. split; [apply extends_print|]. repeat split.
  - intros _ d a. split; [reflexivity|].
    exists [], [CSearchDest d]. split; [apply extends_record|]. repeat split.
  - intros _ p a. split; [reflexivity|].
    exists [MsgRemoved p], []. split; [apply extends_changed|]. repeat split.
  - intros p a. split; [reflexivity|].
    exists [MsgAdded p], []. split; [apply extends_changed|]. repeat split.
  - intros Hf. rewrite Hflag in Hf. discriminate.
Qed.

(** ** The work list *)

Lemma depEq_true a b : depEq a b = true <-> a = b.
Proof. unfold depEq. destruct (Dependency_eq_dec a b); split; congruence. Qed.

Lemma appendMissing_cases deps d :
  (In d deps /\ appendMissing deps d = deps)
  \/ (~ In d deps /\ appendMissing deps d = deps ++ [d]).
Proof.
  unfold appendMissing.
  destruct (existsb (fun x => depEq x d) deps) eqn:E.
  - left. split; [|reflexivity]. apply existsb_exists in E.
    destruct E as (x & Hin & Heq). apply depEq_true in Heq. subst. exact Hin.
  - right. split; [|reflexivity]. intros Hin.
    assert (Ht : existsb (fun x => depEq x d) deps = true).
    { apply existsb_exists. exists d. split; [exact Hin|apply depEq_true; reflexivity]. }
    congruence.
Qed.

Lemma grows_refl deps : grows deps deps.
Proof.
  exists []. rewrite app_nil_r. split; [reflexivity|]. split; [constructor|].
  intros d [].
Qed.

Lemma grows_trans a b c : grows a b -> grows b c -> grows a c.
Proof.
  intros (e1 & -> & N1 & D1) (e2 & -> & N2 & D2). exists (e1 ++ e2).
  split; [symmetry; apply app_assoc|]. split.
  - apply NoDup_app; [exact N1|exact N2|]. 
    intros d H1 H2. apply (D2 d H2). apply in_or_app. right. exact H1.
  - intros d Hin Ha. apply in_app_or in Hin. destruct Hin as [Hin|Hin].
    + exact (D1 d Hin Ha).
    + apply (D2 d Hin). apply in_or_app. left. exact Ha.
Qed.

Lemma appendMissing_grows deps d : grows deps (appendMissing deps d).
Proof.
  destruct (appendMissing_cases deps d) as [[_ ->]|[Hn ->]]; [apply grows_refl|].
  exists [d]. split; [reflexivity|]. split.
  - constructor; [intros []|constructor].
  - intros x [<-|[]]. exact Hn.
Qed.

Lemma fold_appendMissing_grows missing deps :
  grows deps (fold_left appendMissing missing deps).
Proof.
  revert deps. induction missing as [|d missing IH]; intros deps; simpl;
    [apply grows_refl|].
  eapply grows_trans; [apply appendMissing_grows|apply IH].
Qed.

(** Lines 143-155: after the missing dependencies of a package went through
    the loop, every one of them is in the work list. *)
Lemma fold_appendMissing_complete missing deps d :
  In d missing \/ In d deps -> In d (fold_left appendMissing missing deps).
Proof.
  revert deps. induction missing as [|m missing IH]; intros deps H; simpl.
  - destruct H as [[]|H]; exact H.
  - apply IH. destruct H as [[<-|H]|H].
    + right. destruct (appendMissing_cases deps m) as [[Hin ->]|[_ ->]];
        [exact Hin|apply in_or_app; right; left; reflexivity].
    + left. exact H.
    + right. destruct (appendMissing_cases deps m) as [[_ ->]|[_ ->]];
        [exact H|apply in_or_app; left; exact H].
Qed.

(** ** The trace of one entry and of one architecture *)

Lemma addAll_trace `{D : Deb} l (st : Locals) :
  extends st (addAll l st) (map MsgAdded l) []
  /\ sourcePackageList (addAll l st) = sourcePackageList st.
Proof.
  unfold addAll. revert st. induction l as [|p l IH]; intros st; simpl.
  - split; [apply extends_refl|reflexivity].
  - destruct (IH (print (MsgAdded p) (setPackageList (Add (packageList st) p) st)))
      as [He Hs].
    split; [|rewrite Hs; reflexivity].
    eapply (extends_trans _ _ _ [MsgAdded p] [] _ []); [apply extends_changed|exact He].
Qed.

Lemma removeAll_trace `{D : Deb} ctx fuel l (st st' : Locals) :
  noRemove ctx = false ->
  removeAll ctx fuel l st = Some st' ->
  sourcePackageList st' = sourcePackageList st
  /\ exists ms calls,
      extends st st' ms calls
      /\ addedOf ms = [] /\ unsatisfiableOf ms = []
      /\ searchedOf calls = [] /\ verifiedPackagesOf calls = []
      /\ archsOf calls = [].
Proof.
  apply (removeAll_steps ctx fuel
           (fun a b => sourcePackageList b = sourcePackageList a
                       /\ exists ms calls,
                           extends a b ms calls
                           /\ addedOf ms = [] /\ unsatisfiableOf ms = []
                           /\ searchedOf calls = [] /\ verifiedPackagesOf calls = []
                           /\ archsOf calls = [])).
  - intros a. split; [reflexivity|]. exists [], []. split; [apply extends_refl|].
    repeat split.
  - intros a b c (S1 & m1 & c1 & X1 & A1 & U1 & Q1 & V1 & R1)
                 (S2 & m2 & c2 & X2 & A2 & U2 & Q2 & V2 & R2).
    split; [congruence|]. exists (m1 ++ m2), (c1 ++ c2).
    split; [eapply extends_trans; eassumption|].
    observe. rewrite A1, A2, U1, U2, Q1, Q2, V1, V2, R1, R2. repeat split.
  - intros _ d a. split; [reflexivity|]. exists [], [CSearchDest d].
    split; [apply extends_record|]. repeat split.
  - intros _ p a. split; [reflexivity|]. exists [MsgRemoved p], [].
    split; [apply extends_changed|]. repeat split.
Qed.

Lemma verifyAll_trace `{D : Deb} ctx arch l :
  forall pL deps (st : Locals) pL1 deps1 st1,
    fold_left (verifyOne ctx arch) l (pL, deps, st) = (pL1, deps1, st1) ->
    grows deps deps1
    /\ sourcePackageList st1 = sourcePackageList st
    /\ exists ms calls,
        extends st st1 ms calls
        /\ verifiedPackagesOf calls = map (fun p => (p, arch)) l
        /\ searchedOf calls = [] /\ addedOf ms = [] /\ unsatisfiableOf ms = []
        /\ archsOf calls = [].
Proof.
  induction l as [|pkg l IH]; intros pL deps st pL1 deps1 st1 H; cbn [fold_left] in H.
  - injection H as <- <- <-. split; [apply grows_refl|]. split; [reflexivity|].
    exists [], []. split; [apply extends_refl|]. repeat split.
  - unfold verifyOne at 2 in H.
    destruct (VerifyDependencies (Add pL pkg) (DependencyOptions ctx) [arch] (packageList st))
      as [missing e].
    apply IH in H. destruct H as (G & S & ms & calls & X & V & Q & A & U & R).
    split; [eapply grows_trans; [apply fold_appendMissing_grows|exact G]|].
    split; [rewrite S; unfold reportVerification; destruct e; reflexivity|].
    eexists _, _. split; [eapply extends_trans; [apply extends_verify|exact X]|].
    observe. rewrite V, Q, A, U, R. destruct e; repeat split.
Qed.

Lemma loopBody_trace `{D : Deb} ctx src fuel arch dep deps (st : Locals) deps1 st1 :
  loopBody ctx src fuel arch dep deps st = Some (deps1, st1) ->
  grows deps deps1
  /\ (noDeps ctx = true -> deps1 = deps)
  /\ sourcePackageList st1 = sourcePackageList st
  /\ exists ms calls,
      extends st st1 ms calls
      /\ searchedOf calls = [dep]
      /\ addedOf ms = Search (sourcePackageList st) dep (allMatches ctx)
      /\ unsatisfiableOf ms
         = match Search (sourcePackageList st) dep (allMatches ctx) with
           | [] => [dep]
           | _ :: _ => []
           end
      /\ verifiedPackagesOf calls
         = (if noDeps ctx then []
            else map (fun p => (p, arch)) (Search (sourcePackageList st) dep (allMatches ctx)))
      /\ archsOf calls = [].
Proof.
  unfold loopBody. intros H.
  destruct (Search (sourcePackageList st) dep (allMatches ctx)) as [|p ps] eqn:ES.
  - injection H as <- <-. split; [apply grows_refl|]. split; [reflexivity|].
    split; [reflexivity|].
    exists [MsgUnsatisfiable dep src], [CSearchSource dep].
    split; [eapply (extends_trans _ _ _ [] [CSearchSource dep] [MsgUnsatisfiable dep src] []);
            [apply extends_record|apply extends_print]|].
    destruct (noDeps ctx); repeat split.
  - assert (Hst : exists st2,
               (if noRemove ctx then Some (record (CSearchSource dep) st)
                else removeAll ctx fuel (p :: ps) (record (CSearchSource dep) st))
               = Some st2
               /\ sourcePackageList st2 = sourcePackageList st
               /\ exists ms calls,
                   extends st st2 ms calls
                   /\ addedOf ms = [] /\ unsatisfiableOf ms = []
                   /\ searchedOf calls = [dep] /\ verifiedPackagesOf calls = []
                   /\ archsOf calls = []).
    { destruct (noRemove ctx) eqn:Erm.
      - eexists. split; [reflexivity|]. split; [reflexivity|].
        exists [], [CSearchSource dep]. split; [apply extends_record|]. repeat split.
      - destruct (removeAll ctx fuel (p :: ps) (record (CSearchSource dep) st))
          as [st2|] eqn:Er; [|discriminate].
        exists st2. split; [reflexivity|].
        destruct (removeAll_trace _ _ _ _ _ Erm Er)
          as (S2 & ms & calls & X & A & U & Q & V & R).
        split; [exact S2|]. exists ([] ++ ms), ([CSearchSource dep] ++ calls).
        split; [eapply extends_trans; [apply extends_record|exact X]|].
        observe. rewrite A, U, Q, V, R. repeat split. }
    destruct Hst as (st2 & Est & S2 & ms & calls & X & A & U & Q & V & R).
    rewrite Est in H.
    destruct (addAll_trace (p :: ps) st2) as [Xa Sa].
    pose proof (extends_trans _ _ _ _ _ _ _ X Xa) as X2.
    destruct (noDeps ctx) eqn:Edeps.
    + injection H as <- <-. split; [apply grows_refl|]. split; [reflexivity|].
      split; [exact (eq_trans Sa S2)|].
      eexists _, _. split; [exact X2|].
      observe. rewrite A, U, Q, V, R. simpl.
      assert (Hm : forall l, flat_map (fun m => match m with MsgAdded q => [q] | _ => [] end)
                              (map MsgAdded l) = l).
      { induction l as [|a l IHl]; simpl; [reflexivity|]. rewrite IHl. reflexivity. }
      assert (Hu : forall l, flat_map (fun m => match m with
                                                | MsgUnsatisfiable d _ => [d]
                                                | _ => []
                                                end) (map MsgAdded l) = []).
      { induction l as [|a l IHl]; simpl; [reflexivity|]. exact IHl. }
      rewrite Hm, Hu. repeat split.
    + assert (Hv : verifyAll ctx arch (p :: ps) deps (addAll (p :: ps) st2) = (deps1, st1))
        by (injection H as Hv'; exact Hv').
      unfold verifyAll in Hv.
      destruct (fold_left (verifyOne ctx arch) (p :: ps)
                          (NewPackageList, deps, addAll (p :: ps) st2))
        as [[pL1 deps2] st3] eqn:Ef.
      injection Hv as -> ->.
      destruct (verifyAll_trace _ _ _ _ _ _ _ _ _ Ef)
        as (G & S3 & ms3 & calls3 & X3 & V3 & Q3 & A3 & U3 & R3).
      split; [exact G|]. split; [discriminate|].
      split; [rewrite S3, Sa, S2; reflexivity|].
      pose proof (extends_trans _ _ _ _ _ _ _ X2 X3) as X4.
      eexists _, _. split; [exact X4|].
      observe. rewrite A, U, Q, V, R, V3, Q3, A3, U3, R3. simpl.
      assert (Hm : forall l, flat_map (fun m => match m with MsgAdded q => [q] | _ => [] end)
                              (map MsgAdded l) = l).
      { induction l as [|a l IHl]; simpl; [reflexivity|]. rewrite IHl. reflexivity. }
      assert (Hu : forall l, flat_map (fun m => match m with
                                                | MsgUnsatisfiable d _ => [d]
                                                | _ => []
                                                end) (map MsgAdded l) = []).
      { induction l as [|a l IHl]; simpl; [reflexivity|]. exact IHl. }
      rewrite Hm, Hu, ?app_nil_r. repeat split.
Qed.

Lemma firstn_step {A} (l extra : list A) i x :
  nth_error l i = Some x -> firstn (S i) (l ++ extra) = firstn i l ++ [x].
Proof.
  revert i. induction l as [|a l IH]; intros i H.
  - destruct i; discriminate.
  - destruct i as [|i]; simpl in H.
    + injection H as ->. reflexivity.
    + simpl. f_equal. apply (IH i H).
Qed.

Lemma nth_error_length {A} (l : list A) i x : nth_error l i = Some x -> S i <= List.length l.
Proof.
  intros H. assert (Hlt : i < List.length l) by (apply nth_error_Some; congruence).
  lia.
Qed.


(** The whole trace of one architecture, from which the theorems below are
    read off. *)
Lemma pullArch_trace `{D : Deb} ctx src fuel init arch (st : Locals) deps' st' :
  pullArch ctx src fuel init arch st = Some (deps', st') ->
  grows (map (bindArch arch) init) deps'
  /\ (noDeps ctx = true -> deps' = map (bindArch arch) init)
  /\ sourcePackageList st' = sourcePackageList st
  /\ exists ms calls,
      extends st st' ms calls
      /\ archsOf calls = [arch]
      /\ searchedOf calls = deps'
      /\ addedOf ms
         = flat_map (fun d => Search (sourcePackageList st) d (allMatches ctx)) deps'
      /\ unsatisfiableOf ms
         = filter (fun d => match Search (sourcePackageList st) d (allMatches ctx) with
                            | [] => true
                            | _ :: _ => false
                            end) deps'
      /\ verifiedPackagesOf calls
         = if noDeps ctx then [] else map (fun p => (p, arch)) (addedOf ms).
Proof.
  unfold pullArch. intros H.
  set (deps0 := map (bindArch arch) init) in *.
  set (st0 := record (CArch arch) st) in *.
  set (found := fun d => Search (sourcePackageList st) d (allMatches ctx)).
  set (nomatch := fun d => match found d with [] => true | _ :: _ => false end).
  pose (P := fun (i : nat) (deps : list Dependency.t) (s : Locals) =>
          i <= List.length deps
          /\ grows deps0 deps
          /\ (noDeps ctx = true -> deps = deps0)
          /\ sourcePackageList s = sourcePackageList st
          /\ exists ms calls,
              extends st0 s ms calls
              /\ archsOf calls = []
              /\ searchedOf calls = firstn i deps
              /\ addedOf ms = flat_map found (firstn i deps)
              /\ unsatisfiableOf ms = filter nomatch (firstn i deps)
              /\ verifiedPackagesOf calls
                 = if noDeps ctx then [] else map (fun p => (p, arch)) (addedOf ms)).
  assert (Hstep : forall i deps s dep deps1 s1,
             nth_error deps i = Some dep ->
             loopBody ctx src fuel arch dep deps s = Some (deps1, s1) ->
             P i deps s -> P (S i) deps1 s1).
  { intros i deps s dep deps1 s1 Hn Hb (Hi & G & N & S & ms & calls & X & Ar & Q & A & U & V).
    destruct (loopBody_trace _ _ _ _ _ _ _ _ _ Hb)
      as (G1 & N1 & S1 & ms1 & calls1 & X1 & Q1 & A1 & U1 & V1 & Ar1).
    destruct G1 as (extra & -> & Nd & Dj).
    rewrite S in A1, U1, V1. fold (found dep) in A1, U1, V1.
    unfold P. rewrite (firstn_step deps extra i dep Hn).
    split; [rewrite length_app; apply nth_error_length in Hn; lia|].
    split; [eapply grows_trans; [exact G|]; exists extra; repeat split; assumption|].
    split; [intros Hf; rewrite (N1 Hf); apply N; exact Hf|].
    split; [congruence|].
    exists (ms ++ ms1), (calls ++ calls1).
    split; [eapply extends_trans; eassumption|].
    assert (Hun : unsatisfiableOf (ms ++ ms1) = filter nomatch (firstn i deps ++ [dep])).
    { assert (Hf : filter nomatch [dep]
                   = match found dep with [] => [dep] | _ :: _ => [] end).
      { simpl. unfold nomatch. destruct (found dep); reflexivity. }
      rewrite filter_app, Hf. unfold unsatisfiableOf in *.
      rewrite flat_map_app, U, U1. reflexivity. }
    assert (Had : addedOf (ms ++ ms1) = flat_map found (firstn i deps ++ [dep])).
    { unfold addedOf in *. rewrite !flat_map_app, A, A1. simpl.
      rewrite app_nil_r. reflexivity. }
    split; [unfold archsOf in *; rewrite flat_map_app, Ar, Ar1; reflexivity|].
    split; [unfold searchedOf in *; rewrite flat_map_app, Q, Q1; reflexivity|].
    split; [exact Had|]. split; [exact Hun|].
    rewrite Had. unfold verifiedPackagesOf in *. rewrite flat_map_app, V, V1.
    destruct (noDeps ctx); [reflexivity|].
    rewrite A, flat_map_app, map_app. simpl. rewrite app_nil_r. reflexivity. }
  assert (H0 : P 0 deps0 st0).
  { unfold P. split; [lia|]. split; [apply grows_refl|]. split; [reflexivity|].
    split; [reflexivity|]. exists [], []. split; [apply extends_refl|].
    simpl. destruct (noDeps ctx); repeat split. }
  destruct (closure_invariant ctx src fuel arch P Hstep _ _ _ _ _ _ H H0)
    as (j & Hj & Hi & G & N & S & ms & calls & X & Ar & Q & A & U & V).
  rewrite (firstn_all2 deps' Hj) in Q, A, U.
  split; [exact G|]. split; [exact N|]. split; [exact S|].
  exists ([] ++ ms), ([CArch arch] ++ calls).
  split; [eapply extends_trans; [apply extends_record|exact X]|].
  split; [unfold archsOf in *; simpl; rewrite Ar; reflexivity|].
  split; [exact Q|]. split; [exact A|]. split; [exact U|].
  exact V.
Qed.

(** ** What one architecture's loop does *)

(** X11: the work list of an architecture is the initial expressions bound to
    that architecture, in order, followed by appended expressions that are
    pairwise different and different from every initial one; with no-deps
    nothing is appended. *)
Theorem work_list_grows_without_repeats `{D : Deb} ctx src fuel init arch
    (st : Locals) deps' st' :
  pullArch ctx src fuel init arch st = Some (deps', st') ->
  exists extra,
    deps' = map (bindArch arch) init ++ extra
    /\ NoDup extra
    /\ (forall d, In d extra -> ~ In d (map (bindArch arch) init))
    /\ (noDeps ctx = true -> extra = []).
Proof.
  intros H. destruct (pullArch_trace _ _ _ _ _ _ _ _ H) as ((extra & E & N & Dj) & Hn & _).
  exists extra. repeat split; try assumption.
  intros Hf. specialize (Hn Hf). rewrite Hn in E.
  rewrite <- (app_nil_r (map (bindArch arch) init)) in E at 1.
  apply app_inv_head in E. symmetry. exact E.
Qed.

(** X12: every entry of the final work list is searched in the source list
    exactly once, in the order of the list, and nothing else is searched
    there. *)
Theorem every_entry_searched_once `{D : Deb} ctx src fuel init arch
    (st : Locals) deps' st' :
  pullArch ctx src fuel init arch st = Some (deps', st') ->
  exists calls,
    history (env st') = history (env st) ++ calls
    /\ searchedOf calls = deps'
    /\ archsOf calls = [arch].
Proof.
  intros H. destruct (pullArch_trace _ _ _ _ _ _ _ _ H)
    as (_ & _ & _ & ms & calls & [_ Xh] & Ar & Q & _).
  exists calls. repeat split; assumption.
Qed.

(** X13: the packages added for an architecture are, in order, what the searches
    of the source list return for the entries of the final work list. *)
Theorem added_are_the_source_matches `{D : Deb} ctx src fuel init arch
    (st : Locals) deps' st' :
  pullArch ctx src fuel init arch st = Some (deps', st') ->
  exists ms,
    progress (env st') = progress (env st) ++ ms
    /\ addedOf ms
       = flat_map (fun d => Search (sourcePackageList st) d (allMatches ctx)) deps'.
Proof.
  intros H. destruct (pullArch_trace _ _ _ _ _ _ _ _ H)
    as (_ & _ & _ & ms & calls & [Xp _] & _ & _ & A & _).
  exists ms. split; assumption.
Qed.

(** X14: the expressions reported as unsatisfiable are, in order, the entries of
    the final work list that the source list has no match for; the loop
    goes on after each of them. *)
Theorem unsatisfiable_entries_reported `{D : Deb} ctx src fuel init arch
    (st : Locals) deps' st' :
  pullArch ctx src fuel init arch st = Some (deps', st') ->
  exists ms,
    progress (env st') = progress (env st) ++ ms
    /\ unsatisfiableOf ms
       = filter (fun d => match Search (sourcePackageList st) d (allMatches ctx) with
                          | [] => true
                          | _ :: _ => false
                          end) deps'.
Proof.
  intros H. destruct (pullArch_trace _ _ _ _ _ _ _ _ H)
    as (_ & _ & _ & ms & calls & [Xp _] & _ & _ & _ & U & _).
  exists ms. split; assumption.
Qed.

(** X15: unless no-deps is set, the packages handed to dependency verification
    are the packages added, in the same order, each with the architecture
    being processed. *)
Theorem added_packages_are_verified `{D : Deb} ctx src fuel init arch
    (st : Locals) deps' st' :
  noDeps ctx = false ->
  pullArch ctx src fuel init arch st = Some (deps', st') ->
  exists ms calls,
    extends st st' ms calls
    /\ verifiedPackagesOf calls = map (fun p => (p, arch)) (addedOf ms).
Proof.
  intros Hf H. destruct (pullArch_trace _ _ _ _ _ _ _ _ H)
    as (_ & _ & _ & ms & calls & X & _ & _ & _ & _ & V).
  rewrite Hf in V. exists ms, calls. split; assumption.
Qed.

(** X16: lines 111-117: when the removal loop for a package ends, a search of
    the destination list for the package's name and architecture finds
    nothing. *)
Theorem removal_ends_without_match `{D : Deb} ctx n pkg (st st' : Locals) :
  removeLoop ctx n pkg st = Some st' ->
  Search (packageList st') (sameNameArch pkg) (allMatches ctx) = [].
Proof.
  revert st. induction n as [|n IH]; intros st H; simpl in H; [discriminate|].
  destruct (Search (packageList st) (sameNameArch pkg) (allMatches ctx)) as [|p pS] eqn:E.
  - injection H as <-. simpl. exact E.
  - apply IH in H. exact H.
Qed.

Lemma flat_map_map {A B C} (f : B -> list C) (g : A -> B) l :
  flat_map f (map g l) = flat_map (fun x => f (g x)) l.
Proof. induction l as [|a l IH]; simpl; [reflexivity|]. rewrite IH. reflexivity. Qed.

(** X17: with no-deps the packages added by the whole pull are, architecture by
    architecture and expression by expression, what the source list returns
    for the initial expressions bound to the architecture. *)
Theorem no_deps_adds_the_direct_matches `{D : Deb} ctx src fuel init archs
    (st st' : Locals) :
  noDeps ctx = true ->
  performPull ctx src fuel init archs st = Some st' ->
  exists ms,
    progress (env st') = progress (env st) ++ ms
    /\ addedOf ms
       = flat_map (fun a =>
                     flat_map (fun d => Search (sourcePackageList st) (bindArch a d)
                                               (allMatches ctx)) init) archs.
Proof.
  intros Hf. revert st. induction archs as [|a archs IH]; intros st H; simpl in H.
  - injection H as <-. exists []. rewrite app_nil_r. split; reflexivity.
  - destruct (pullArch ctx src fuel init a st) as [[deps1 st1]|] eqn:E; [|discriminate].
    destruct (pullArch_trace _ _ _ _ _ _ _ _ E)
      as (_ & Hn & Hs & ms1 & calls1 & [Xp _] & _ & _ & A & _).
    rewrite (Hn Hf), flat_map_map in A.
    destruct (IH st1 H) as (ms2 & Xp2 & A2). rewrite Hs in A2.
    exists (ms1 ++ ms2). rewrite Xp2, Xp, app_assoc. split; [reflexivity|].
    unfold addedOf in *. rewrite flat_map_app, A, A2. reflexivity.
Qed.

(** ** Verification errors change nothing but their reports *)

Section Quiet.
Context {D : Deb}.
Variable ctx : Context.

Lemma quiet_print m (st : @Locals D) :
  notVerifyError m = true ->
  @quiet D (@print D m st) = @print (silent D) m (@quiet D st).
Proof.
  intros H. unfold quiet, print. simpl. rewrite filter_app. simpl. rewrite H.
  reflexivity.
Qed.

Lemma quiet_record c (st : @Locals D) :
  @quiet D (@record D c st) = @record (silent D) (quietCall c) (@quiet D st).
Proof. unfold quiet, record. simpl. rewrite map_app. reflexivity. Qed.

Lemma quiet_changed m l (st : @Locals D) :
  notVerifyError m = true ->
  @quiet D (@print D m (@setPackageList D l st))
  = @print (silent D) m (@setPackageList (silent D) l (@quiet D st)).
Proof.
  intros H. unfold quiet, print, setPackageList. simpl. rewrite filter_app. simpl.
  rewrite H. reflexivity.
Qed.

Lemma quiet_reportVerification pkg arch e (st : @Locals D) :
  @quiet D (@reportVerification D pkg arch e st)
  = @reportVerification (silent D) pkg arch None (@quiet D st).
Proof.
  unfold quiet, reportVerification, print, record, setErr.
  destruct e; simpl; rewrite ?filter_app, map_app; simpl; rewrite ?app_nil_r;
    reflexivity.
Qed.

Lemma quiet_removeFound pS (st : @Locals D) :
  @removeFound (silent D) pS (@quiet D st) = @quiet D (@removeFound D pS st).
Proof.
  unfold removeFound. revert st. induction pS as [|p pS IH]; intros st; simpl;
    [reflexivity|].
  rewrite <- IH. rewrite (quiet_changed (MsgRemoved p)); reflexivity.
Qed.

Lemma quiet_removeLoop n pkg (st : @Locals D) :
  @removeLoop (silent D) ctx n pkg (@quiet D st)
  = option_map (@quiet D) (@removeLoop D ctx n pkg st).
Proof.
  revert st. induction n as [|n IH]; intros st; [reflexivity|].
  cbn [removeLoop].
  change (@Search (silent D) (packageList (@quiet D st)))
    with (@Search D (packageList st)).
  destruct (@Search D (packageList st) (sameNameArch pkg) (allMatches ctx)) as [|p pS].
  - simpl. rewrite quiet_record. reflexivity.
  - rewrite <- IH, <- quiet_removeFound, quiet_record. reflexivity.
Qed.

Lemma quiet_removeAll fuel l (st : @Locals D) :
  @removeAll (silent D) ctx fuel l (@quiet D st)
  = option_map (@quiet D) (@removeAll D ctx fuel l st).
Proof.
  revert st. induction l as [|pkg l IH]; intros st; [reflexivity|].
  cbn [removeAll]. rewrite quiet_removeLoop.
  destruct (@removeLoop D ctx fuel pkg st) as [st1|]; [apply IH|reflexivity].
Qed.

Lemma quiet_addAll l (st : @Locals D) :
  @addAll (silent D) l (@quiet D st) = @quiet D (@addAll D l st).
Proof.
  unfold addAll. revert st. induction l as [|p l IH]; intros st; simpl; [reflexivity|].
  rewrite <- IH. rewrite (quiet_changed (MsgAdded p)); reflexivity.
Qed.

Lemma quiet_verifyOne arch pL deps (st : @Locals D) pkg :
  @verifyOne (silent D) ctx arch (pL, deps, @quiet D st) pkg
  = let '(pL1, deps1, st1) := @verifyOne D ctx arch (pL, deps, st) pkg in
    (pL1, deps1, @quiet D st1).
Proof.
  unfold verifyOne.
  change (@VerifyDependencies (silent D) (@Add (silent D) pL pkg)
            (DependencyOptions ctx) [arch] (packageList (@quiet D st)))
    with (fst (@VerifyDependencies D (@Add D pL pkg) (DependencyOptions ctx) [arch]
                 (packageList st)), @None error).
  destruct (@VerifyDependencies D (@Add D pL pkg) (DependencyOptions ctx) [arch]
              (packageList st)) as [missing e].
  cbn [fst]. rewrite (quiet_reportVerification pkg arch e st). reflexivity.
Qed.

Lemma quiet_verifyFold arch l :
  forall pL deps (st : @Locals D),
    fold_left (@verifyOne (silent D) ctx arch) l (pL, deps, @quiet D st)
    = let '(pL1, deps1, st1) := fold_left (@verifyOne D ctx arch) l (pL, deps, st) in
      (pL1, deps1, @quiet D st1).
Proof.
  induction l as [|pkg l IH]; intros pL deps st; cbn [fold_left]; [reflexivity|].
  rewrite quiet_verifyOne.
  destruct (@verifyOne D ctx arch (pL, deps, st) pkg) as [[pL1 deps1] st1].
  apply IH.
Qed.

Lemma quiet_verifyAll arch l deps (st : @Locals D) :
  @verifyAll (silent D) ctx arch l deps (@quiet D st)
  = let '(deps1, st1) := @verifyAll D ctx arch l deps st in (deps1, @quiet D st1).
Proof.
  unfold verifyAll.
  change (@NewPackageList (silent D)) with (@NewPackageList D).
  rewrite quiet_verifyFold.
  match goal with
  | |- context [fold_left ?f ?x ?a] => set (r := fold_left f x a)
  end.
  repeat match goal with
         | |- context [fold_left ?f ?x ?a] => change (fold_left f x a) with r
         end.
  destruct r as [[pL1 deps1] st1]. reflexivity.
Qed.

Lemma quiet_loopBody src fuel arch dep deps (st : @Locals D) :
  @loopBody (silent D) ctx src fuel arch dep deps (@quiet D st)
  = option_map (fun r => (fst r, @quiet D (snd r)))
               (@loopBody D ctx src fuel arch dep deps st).
Proof.
  unfold loopBody.
  change (@Search (silent D) (sourcePackageList (@quiet D st)))
    with (@Search D (sourcePackageList st)).
  pose proof (quiet_record (CSearchSource dep) st) as Hq. cbn [quietCall] in Hq.
  rewrite <- Hq. clear Hq.
  destruct (@Search D (sourcePackageList st) dep (allMatches ctx)) as [|p ps].
  - simpl. rewrite quiet_print; reflexivity.
  - assert (Hr : (if noRemove ctx then Some (@quiet D (@record D (CSearchSource dep) st))
                  else @removeAll (silent D) ctx fuel (p :: ps)
                         (@quiet D (@record D (CSearchSource dep) st)))
                 = option_map (@quiet D)
                     (if noRemove ctx then Some (@record D (CSearchSource dep) st)
                      else @removeAll D ctx fuel (p :: ps)
                             (@record D (CSearchSource dep) st))).
    { destruct (noRemove ctx); [reflexivity|apply quiet_removeAll]. }
    rewrite Hr.
    destruct (if noRemove ctx then Some (@record D (CSearchSource dep) st)
              else @removeAll D ctx fuel (p :: ps) (@record D (CSearchSource dep) st))
      as [st2|]; [|reflexivity].
    cbn [option_map]. rewrite quiet_addAll.
    destruct (noDeps ctx); [reflexivity|].
    rewrite quiet_verifyAll.
    destruct (@verifyAll D ctx arch (p :: ps) deps (@addAll D (p :: ps) st2)); reflexivity.
Qed.

Lemma quiet_closure src fuel n arch :
  forall i deps (st : @Locals D),
    @closure (silent D) ctx src fuel n arch i deps (@quiet D st)
    = option_map (fun r => (fst r, @quiet D (snd r)))
                 (@closure D ctx src fuel n arch i deps st).
Proof.
  induction n as [|n IH]; intros i deps st; [reflexivity|].
  rewrite !closure_step. destruct (nth_error deps i) as [dep|]; [|reflexivity].
  rewrite quiet_loopBody.
  destruct (@loopBody D ctx src fuel arch dep deps st) as [[deps1 st1]|]; [|reflexivity].
  apply IH.
Qed.

End Quiet.

(** X10: a verification error is not fatal: run with a verifier that returns the
    same missing dependencies but no error, the pull takes the same steps
    and ends (or exhausts its budget) in the same state, except that [err]
    is [nil], no verification error is reported and the history shows
    successful verifications. *)
Theorem verification_errors_only_reported (D : Deb) ctx src fuel init archs
    (st : @Locals D) :
  @performPull (silent D) ctx src fuel init archs (@quiet D st)
  = option_map (@quiet D) (@performPull D ctx src fuel init archs st).
Proof.
  revert st. induction archs as [|a archs IH]; intros st; [reflexivity|].
  cbn [performPull]. unfold pullArch.
  pose proof (quiet_record (CArch a) st) as Hq. cbn [quietCall] in Hq.
  rewrite <- Hq, quiet_closure. clear Hq.
  destruct (@closure D ctx src fuel fuel a 0 (map (bindArch a) init)
              (@record D (CArch a) st)) as [[deps1 st1]|]; [|reflexivity].
  apply IH.
Qed.

(** ** The initial expressions *)

Lemma parseAll_ok `{D : Deb} queries ds :
  parseAll queries = inl ds ->
  ds = map (fun a => fst (ParseDependency a)) queries
  /\ Forall (fun a => snd (ParseDependency a) = None) queries.
Proof.
  revert ds. induction queries as [|q qs IH]; intros ds H; simpl in H.
  - injection H as <-. split; [reflexivity|constructor].
  - destruct (ParseDependency q) as [d [x|]] eqn:Eq; [discriminate|].
    destruct (parseAll qs) as [ds'|y]; [|discriminate].
    injection H as <-. destruct (IH ds' eq_refl) as [-> Hall].
    simpl. rewrite Eq. split; [reflexivity|].
    constructor; [rewrite Eq; reflexivity|exact Hall].
Qed.

(** X5: lines 81-87: when the command reaches the loop, the initial expressions
    are the parsed arguments after the third, one for each and in their
    order, and every one of these arguments parsed without error. *)
Theorem initial_expressions_are_the_arguments `{D : Deb} ctx args e p :
  prepare ctx args e = inr p ->
  initialDependencies p = map (fun a => fst (ParseDependency a)) (skipn 3 args)
  /\ Forall (fun a => snd (ParseDependency a) = None) (skipn 3 args)
  /\ 1 <= List.length (initialDependencies p).
Proof.
  unfold prepare. intros H.
  destruct (load args e) as [x|l] eqn:El; [discriminate|].
  destruct (chooseArchitectures ctx (packageList (locals l))); [discriminate|].
  destruct (parseAll (skipn 3 args)) as [ds|y] eqn:Ep; [|discriminate].
  injection H as <-. simpl.
  destruct (parseAll_ok _ _ Ep) as [Hd Hall]. split; [exact Hd|]. split; [exact Hall|].
  rewrite Hd, length_map. apply load_enough_arguments in El.
  rewrite length_skipn. lia.
Qed.

(** ** Termination without removal and without dependencies *)

Lemma closure_simple_total `{D : Deb} ctx src fuel arch :
  noRemove ctx = true -> noDeps ctx = true ->
  forall n i deps (st : Locals),
    List.length deps - i < n ->
    exists st', closure ctx src fuel n arch i deps st = Some (deps, st').
Proof.
  intros Hr Hd. induction n as [|n IH]; intros i deps st Hn; [lia|].
  rewrite closure_step. destruct (nth_error deps i) as [dep|] eqn:En.
  - apply nth_error_length in En. unfold loopBody. rewrite Hr, Hd.
    destruct (Search (sourcePackageList st) dep (allMatches ctx)); apply IH; lia.
  - eexists. reflexivity.
Qed.

(** X18: with no-remove and no-deps the loop of every architecture makes one
    iteration for each initial expression: a budget above their number is
    enough for the pull to complete, whatever the package lists hold. *)
Theorem simple_pull_completes `{D : Deb} ctx src fuel init archs (st : Locals) :
  noRemove ctx = true ->
  noDeps ctx = true ->
  List.length init < fuel ->
  exists st', performPull ctx src fuel init archs st = Some st'.
Proof.
  intros Hr Hd Hf. revert st. induction archs as [|a archs IH]; intros st; simpl.
  - eexists. reflexivity.
  - unfold pullArch.
    destruct (closure_simple_total ctx src fuel a Hr Hd fuel 0 (map (bindArch a) init)
                (record (CArch a) st)) as [st1 E].
    { rewrite length_map. lia. }
    rewrite E. apply IH.
Qed.

(** ** What the verifier returns and what becomes of it *)

Lemma reportVerification_frame `{D : Deb} pkg arch e (st : Locals) :
  packageList (reportVerification pkg arch e st) = packageList st
  /\ sourcePackageList (reportVerification pkg arch e st) = sourcePackageList st
  /\ err (reportVerification pkg arch e st) = e
  /\ progress (env (reportVerification pkg arch e st))
     = progress (env st) ++ match e with
                            | Some x => [MsgVerifyError pkg x]
                            | None => []
                            end.
Proof.
  unfold reportVerification. destruct e; simpl; rewrite ?app_nil_r; repeat split.
Qed.

Lemma verifyFold_result `{D : Deb} ctx arch l :
  forall pL deps (st : Locals) pL1 deps1 st1,
    fold_left (verifyOne ctx arch) l (pL, deps, st) = (pL1, deps1, st1) ->
    packageList st1 = packageList st
    /\ pL1 = fold_left Add l pL
    /\ progress (env st1)
       = progress (env st)
         ++ map (fun px => MsgVerifyError (fst px) (snd px))
                (verificationErrors ctx arch pL l (packageList st))
    /\ err st1
       = match l with
         | [] => err st
         | _ :: _ =>
             snd (VerifyDependencies (fold_left Add l pL) (DependencyOptions ctx) [arch]
                    (packageList st))
         end.
Proof.
  induction l as [|pkg l IH]; intros pL deps st pL1 deps1 st1 H; cbn [fold_left] in H.
  - injection H as <- <- <-. simpl. rewrite app_nil_r. repeat split.
  - unfold verifyOne at 2 in H.
    destruct (VerifyDependencies (Add pL pkg) (DependencyOptions ctx) [arch] (packageList st))
      as [missing e] eqn:Ev.
    apply IH in H. destruct H as (Hp & HL & Hm & He).
    destruct (reportVerification_frame pkg arch e st) as (Fp & _ & Fe & Fm).
    rewrite Fp in Hp, Hm, He. rewrite Fm in Hm. rewrite Fe in He.
    split; [exact Hp|]. split; [exact HL|]. split.
    + rewrite Hm. cbn [verificationErrors]. rewrite Ev. cbn [snd].
      rewrite map_app, app_assoc. destruct e; reflexivity.
    + rewrite He. cbn [fold_left]. destruct l as [|q l]; [|reflexivity].
      simpl. rewrite Ev. reflexivity.
Qed.

(** X9: lines 132-156: the loop over the packages found prints as
    verification errors, in order and without omission, exactly the errors
    [VerifyDependencies] returns when run, after each package is added to the
    candidate list, for the architecture being processed against the
    destination list, each with the package just added; it leaves the
    destination list as it was, and [err] holds what the call for the last
    package returned. *)
Theorem verification_errors_reported `{D : Deb} ctx arch searchResults deps
    (st : Locals) deps1 st1 :
  verifyAll ctx arch searchResults deps st = (deps1, st1) ->
  packageList st1 = packageList st
  /\ progress (env st1)
     = progress (env st)
       ++ map (fun px => MsgVerifyError (fst px) (snd px))
              (verificationErrors ctx arch NewPackageList searchResults (packageList st))
  /\ err st1
     = match searchResults with
       | [] => err st
       | _ :: _ =>
           snd (VerifyDependencies (fold_left Add searchResults NewPackageList)
                  (DependencyOptions ctx) [arch] (packageList st))
       end.
Proof.
  unfold verifyAll. intros H.
  destruct (fold_left (verifyOne ctx arch) searchResults (NewPackageList, deps, st))
    as [[pL1 deps2] st2] eqn:Ef.
  injection H as <- <-.
  destruct (verifyFold_result _ _ _ _ _ _ _ _ _ Ef) as (Hp & _ & Hm & He).
  repeat split; assumption.
Qed.

(** One entry of the work list: without a match [err] and the destination
    list stay as they are; with a match, unless no-deps is set, [err] is what
    the verifier returns for all the packages found against the destination
    list the entry leaves behind. *)
Lemma loopBody_err `{D : Deb} ctx src fuel arch dep deps (st : Locals) deps1 st1 :
  loopBody ctx src fuel arch dep deps st = Some (deps1, st1) ->
  (Search (sourcePackageList st) dep (allMatches ctx) = [] ->
   err st1 = err st /\ packageList st1 = packageList st)
  /\ (noDeps ctx = false ->
      Search (sourcePackageList st) dep (allMatches ctx) <> [] ->
      err st1
      = snd (VerifyDependencies
               (fold_left Add (Search (sourcePackageList st) dep (allMatches ctx))
                          NewPackageList)
               (DependencyOptions ctx) [arch] (packageList st1))).
Proof.
  unfold loopBody. intros H.
  destruct (Search (sourcePackageList st) dep (allMatches ctx)) as [|p ps] eqn:ES.
  - injection H as <- <-. split; [intros _; split; reflexivity|].
    intros _ Hne. exfalso. apply Hne. reflexivity.
  - split; [discriminate|]. intros Hd _. rewrite Hd in H.
    destruct (if noRemove ctx then Some (record (CSearchSource dep) st)
              else removeAll ctx fuel (p :: ps) (record (CSearchSource dep) st))
      as [st2|]; [|discriminate].
    assert (Hv : verifyAll ctx arch (p :: ps) deps (addAll (p :: ps) st2) = (deps1, st1))
      by (injection H as Hv'; exact Hv').
    unfold verifyAll in Hv.
    destruct (fold_left (verifyOne ctx arch) (p :: ps)
                        (NewPackageList, deps, addAll (p :: ps) st2))
      as [[pL1 deps2] st3] eqn:Ef.
    injection Hv as <- <-.
    destruct (verifyFold_result _ _ _ _ _ _ _ _ _ Ef) as (Hp & _ & _ & He).
    rewrite He, Hp. reflexivity.
Qed.

Lemma scan_nothing `{D : Deb} ctx src0 calls s :
  archsOf calls = [] -> searchedOf calls = [] ->
  fold_left (scanCall ctx src0) calls s = s.
Proof.
  revert s. induction calls as [|c calls IH]; intros s Ha Hs; [reflexivity|].
  destruct c; simpl in Ha, Hs; try discriminate; simpl; apply IH; assumption.
Qed.

Lemma scan_one `{D : Deb} ctx src0 calls d s :
  archsOf calls = [] -> searchedOf calls = [d] ->
  fold_left (scanCall ctx src0) calls s = scanCall ctx src0 s (CSearchSource d).
Proof.
  revert s. induction calls as [|c calls IH]; intros s Ha Hs; [discriminate|].
  destruct c; simpl in Ha, Hs; try discriminate.
  - injection Hs as -> Hs. cbn [fold_left]. apply scan_nothing; assumption.
  - cbn [fold_left]. simpl (scanCall ctx src0 s (CSearchDest dep)). apply IH; assumption.
  - cbn [fold_left]. simpl (scanCall ctx src0 s (CVerify pkg arch e)).
    apply IH; assumption.
Qed.

Section LastVerification.
Context `{D : Deb}.
Variable ctx : Context.
Variable src : Snapshot.t.
Variable fuel : nat.
Variable src0 : PackageList.
Variable h0 : list Call.
Variable e0 : option error.
Hypothesis Hdeps : noDeps ctx = false.

Lemma loopBody_settled arch dep deps (st : Locals) deps1 st1 :
  loopBody ctx src fuel arch dep deps st = Some (deps1, st1) ->
  settled ctx src0 h0 e0 (Some arch) st -> settled ctx src0 h0 e0 (Some arch) st1.
Proof.
  intros Hb (Hs & calls & Hh & Ha & He).
  destruct (loopBody_trace _ _ _ _ _ _ _ _ _ Hb)
    as (_ & _ & S1 & ms1 & calls1 & [_ X1] & Q1 & _ & _ & _ & Ar1).
  destruct (loopBody_err _ _ _ _ _ _ _ _ _ Hb) as [Hnone Hsome].
  rewrite Hs in Hnone, Hsome.
  specialize (Ha arch eq_refl).
  split; [congruence|]. exists (calls ++ calls1).
  split; [rewrite X1, Hh, app_assoc; reflexivity|].
  assert (Hscan : fold_left (scanCall ctx src0) (calls ++ calls1) (""%string, None)
                  = scanCall ctx src0
                      (fold_left (scanCall ctx src0) calls (""%string, None))
                      (CSearchSource dep)).
  { rewrite fold_left_app. apply scan_one; assumption. }
  split.
  - intros a Hae. injection Hae as <-. rewrite Hscan. simpl.
    destruct (Search src0 dep (allMatches ctx)); exact Ha.
  - unfold lastVerificationError, lastMatch in *. rewrite Hscan. simpl.
    destruct (Search src0 dep (allMatches ctx)) as [|p ps] eqn:ES.
    + destruct (Hnone eq_refl) as [E1 P1]. rewrite E1, P1. exact He.
    + cbn [snd]. rewrite Ha, ES. apply (Hsome Hdeps). discriminate.
Qed.

Lemma pullArch_settled init arch (st : Locals) deps' st' any :
  pullArch ctx src fuel init arch st = Some (deps', st') ->
  settled ctx src0 h0 e0 any st -> settled ctx src0 h0 e0 (Some arch) st'.
Proof.
  unfold pullArch. intros H (Hs & calls & Hh & _ & He).
  assert (H0 : settled ctx src0 h0 e0 (Some arch) (record (CArch arch) st)).
  { split; [exact Hs|]. exists (calls ++ [CArch arch]).
    split; [simpl; rewrite Hh, app_assoc; reflexivity|].
    split.
    - intros a Hae. injection Hae as <-. rewrite fold_left_app. reflexivity.
    - unfold lastVerificationError, lastMatch in *. rewrite fold_left_app. exact He. }
  destruct (closure_invariant ctx src fuel arch
              (fun _ _ s => settled ctx src0 h0 e0 (Some arch) s)
              (fun i deps s dep deps1 s1 _ Hb Hset =>
                 loopBody_settled arch dep deps s deps1 s1 Hb Hset)
              _ _ _ _ _ _ H H0) as (j & _ & Hfin).
  exact Hfin.
Qed.

Lemma performPull_settled init archs (st st' : Locals) any :
  performPull ctx src fuel init archs st = Some st' ->
  settled ctx src0 h0 e0 any st -> settled ctx src0 h0 e0 None st'.
Proof.
  revert st any. induction archs as [|a archs IH]; intros st any H Hset; simpl in H.
  - injection H as <-. destruct Hset as (Hs & calls & Hh & _ & He).
    split; [exact Hs|]. exists calls. split; [exact Hh|]. split; [discriminate|exact He].
  - destruct (pullArch ctx src fuel init a st) as [[deps1 st1]|] eqn:E; [|discriminate].
    eapply IH; [exact H|]. eapply pullArch_settled; eassumption.
Qed.

End LastVerification.

Lemma performPull_err_kept `{D : Deb} ctx src fuel init archs (st st' : Locals) :
  noDeps ctx = true ->
  performPull ctx src fuel init archs st = Some st' ->
  err st' = err st.
Proof.
  intros Hflag.
  apply (performPull_steps ctx src fuel (fun a b => err b = err a));
    intros; simpl; congruence.
Qed.

(** C10: the value returned after the loop is the shared [err].  With
    dry-run it is what the last dependency verification of the loop returned,
    although the loop completed: the verifier's own result for the packages
    found for the last work-list entry that had a match, for the architecture
    of that iteration and against the final destination list, an error if
    that call failed; [nil] when no entry had a match or no-deps was set.
    Without dry-run it is decided by the collection accepting the new
    snapshot alone. *)
Theorem returned_error_is_shared_err `{D : Deb} ctx fuel args e p st :
  prepare ctx args e = inr p ->
  performPull ctx (source (loaded p)) fuel (initialDependencies p)
              (architecturesList p) (locals (loaded p)) = Some st ->
  exists r e' calls,
    aptlySnapshotPull ctx fuel args e = Some (r, e')
    /\ history e' = history e ++ calls
    /\ (dryRun ctx = true -> r = last (verifiedOf calls) None)
    /\ (dryRun ctx = true -> noDeps ctx = true -> r = None)
    /\ (dryRun ctx = true -> noDeps ctx = false ->
        r = match lastMatch ctx (sourcePackageList (locals (loaded p))) calls with
            | None => None
            | Some (arch, dep) =>
                snd (VerifyDependencies
                       (fold_left Add
                          (Search (sourcePackageList (locals (loaded p))) dep
                                  (allMatches ctx))
                          NewPackageList)
                       (DependencyOptions ctx) [arch] (packageList st))
            end)
    /\ (dryRun ctx = false ->
        r = option_map (Errorf "unable to create snapshot: ")
              (snd (CollectionAdd (collection e) (newDestination args p st)))).
Proof.
  intros Hp Hrun.
  pose proof (performPull_collection _ _ _ _ _ _ _ Hrun) as Hc.
  destruct (performPull_err _ _ _ _ _ _ _ Hrun) as (calls & Hh & He).
  destruct (load_frame args e (loaded p) (prepare_loaded ctx args e p Hp))
    as (Hc0 & Hh0 & _ & _ & He0).
  rewrite Hc0 in Hc. rewrite Hh0 in Hh. rewrite He0 in He.
  pose proof (finish_history ctx args p st) as Hf.
  unfold aptlySnapshotPull. rewrite Hp, Hrun.
  exists (fst (finish ctx args p st)), (snd (finish ctx args p st)), calls.
  split; [destruct (finish ctx args p st); reflexivity|].
  split; [rewrite Hf; exact Hh|].
  unfold finish. destruct (dryRun ctx).
  - split; [intros _; exact He|]. cbn [fst].
    split; [intros _ Hd; rewrite (performPull_err_kept _ _ _ _ _ _ _ Hd Hrun); exact He0|].
    split; [|discriminate]. intros _ Hd.
    destruct (performPull_settled ctx (source (loaded p)) fuel
                (sourcePackageList (locals (loaded p))) (history e) None Hd
                (initialDependencies p) (architecturesList p) (locals (loaded p)) st None
                Hrun) as (_ & calls' & Hh' & _ & He').
    { split; [reflexivity|]. exists []. rewrite app_nil_r.
      split; [exact Hh0|]. split; [discriminate|exact He0]. }
    rewrite Hh in Hh'. apply app_inv_head in Hh'. subst calls'. exact He'.
  - split; [discriminate|]. split; [discriminate|]. split; [discriminate|].
    intros _. rewrite Hc.
    destruct (CollectionAdd (collection e) (newDestination args p st)) as [c [x|]];
      reflexivity.
Qed.

(** ** The further theorems at concrete inputs *)

Lemma too_few_arguments_witness :
  aptlySnapshotPull (D := exDeb) (exCtx false false false false []) 5
    ["old"; "src"; "new"] exEnv
  = Some (Some (@ErrCommandError exDeb), say (D := exDeb) MsgUsage exEnv).
Proof. apply too_few_arguments. simpl. lia. Defined.

Lemma snapshot_lookup_failure_witness :
  aptlySnapshotPull (D := exDeb) (exCtx false false false false []) 5
    ["absent"; "src"; "new"; "pkgA"] exEnv
  = Some (Some (Errorf "unable to pull: " "NotFound: absent"), exEnv).
Proof. apply snapshot_lookup_failure. left. vm_compute. reflexivity. Defined.

Lemma package_list_load_failure_witness :
  aptlySnapshotPull (D := exDeb) (exCtx false false false false []) 5
    ["old"; "broken"; "new"; "pkgA"] exEnvBroken
  = Some (Some (Errorf "unable to load packages: " "NotFound: pkgZ 9 amd64"),
          say (D := exDeb)
              (MsgLoading (List.length (Snapshot.RefList exOld)
                           + List.length (Snapshot.RefList exBroken)))
              (say (D := exDeb) (MsgPlan exOld exBroken "new") exEnvBroken)).
Proof.
  apply (package_list_load_failure (D := exDeb) (exCtx false false false false []) 5
           "old" "broken" "new" "pkgA" [] exEnvBroken exOld exOld exBroken exBroken).
  - vm_compute. reflexivity.
  - vm_compute. reflexivity.
  - vm_compute. reflexivity.
  - vm_compute. reflexivity.
  - right. split; vm_compute; reflexivity.
Defined.

Lemma snapshot_creation_failure_witness :
  exists p st,
    prepare (D := exDeb) (exCtx false false false false ["amd64"])
            ["old"; "src"; "old"; "pkgA"] exEnv = inr p
    /\ performPull (exCtx false false false false ["amd64"]) (source (loaded p)) 5
         (initialDependencies p) (architecturesList p) (locals (loaded p)) = Some st
    /\ exists e',
        aptlySnapshotPull (exCtx false false false false ["amd64"]) 5
          ["old"; "src"; "old"; "pkgA"] exEnv
        = Some (Some (Errorf "unable to create snapshot: " "DuplicateName: old"), e')
        /\ progress e' = progress (env st)
        /\ history e' = history (env st)
        /\ collection e'
           = fst (CollectionAdd (collection exEnv)
                    (newDestination ["old"; "src"; "old"; "pkgA"] p st)).
Proof.
  eexists. eexists. split; [vm_compute; reflexivity|].
  split; [vm_compute; reflexivity|].
  eapply (snapshot_creation_failure (D := exDeb)
            (exCtx false false false false ["amd64"]) 5
            ["old"; "src"; "old"; "pkgA"] exEnv).
  - vm_compute. reflexivity.
  - vm_compute. reflexivity.
  - reflexivity.
  - vm_compute. reflexivity.
Defined.

Lemma reports_replay_to_destination_witness :
  exists st',
    performPull (D := exDeb) (exCtx false false false false []) exSrc 5 exInit
      ["amd64"] exStart = Some st'
    /\ exists ms,
        progress (env st') = progress (env exStart) ++ ms
        /\ packageList st' = replay ms (packageList exStart).
Proof.
  eexists. split; [vm_compute; reflexivity|].
  eapply (reports_replay_to_destination (D := exDeb)
            (exCtx false false false false []) exSrc 5 exInit ["amd64"]).
  vm_compute. reflexivity.
Defined.

Lemma no_remove_only_adds_witness :
  exists st',
    performPull (D := exDeb) (exCtx false false true false []) exSrc 5 exInit
      ["amd64"] exStart = Some st'
    /\ exists ms calls,
        extends exStart st' ms calls
        /\ removedOf ms = []
        /\ destSearchesOf calls = []
        /\ packageList st' = fold_left (@Add exDeb) (addedOf ms) (packageList exStart).
Proof.
  eexists. split; [vm_compute; reflexivity|].
  eapply (no_remove_only_adds (D := exDeb)
            (exCtx false false true false []) exSrc 5 exInit ["amd64"]).
  - reflexivity.
  - vm_compute. reflexivity.
Defined.

Lemma no_deps_verifies_nothing_witness :
  exists st',
    performPull (D := exDeb) (exCtx false true false false []) exSrc 5 exInit
      ["amd64"] exStart = Some st'
    /\ err st' = err exStart
    /\ exists ms calls,
        extends exStart st' ms calls
        /\ verifiedPackagesOf calls = []
        /\ reportedOf ms = [].
Proof.
  eexists. split; [vm_compute; reflexivity|].
  eapply (no_deps_verifies_nothing (D := exDeb)
            (exCtx false true false false []) exSrc 5 exInit ["amd64"]).
  - reflexivity.
  - vm_compute. reflexivity.
Defined.

Lemma work_list_grows_without_repeats_witness :
  exists deps' st',
    pullArch (D := exDeb) (exCtx false false false false []) exSrc 5 exInit
      "amd64" exStart = Some (deps', st')
    /\ exists extra,
        deps' = map (bindArch "amd64") exInit ++ extra
        /\ NoDup extra
        /\ (forall d, In d extra -> ~ In d (map (bindArch "amd64") exInit))
        /\ (noDeps (exCtx false false false false []) = true -> extra = []).
Proof.
  eexists. eexists. split; [vm_compute; reflexivity|].
  eapply (work_list_grows_without_repeats (D := exDeb)
            (exCtx false false false false []) exSrc 5 exInit "amd64" exStart).
  vm_compute. reflexivity.
Defined.

Lemma every_entry_searched_once_witness :
  exists deps' st',
    pullArch (D := exDeb) (exCtx false false false false []) exSrc 5 exInit
      "amd64" exStart = Some (deps', st')
    /\ exists calls,
        history (env st') = history (env exStart) ++ calls
        /\ searchedOf calls = deps'
        /\ archsOf calls = ["amd64"].
Proof.
  eexists. eexists. split; [vm_compute; reflexivity|].
  eapply (every_entry_searched_once (D := exDeb)
            (exCtx false false false false []) exSrc 5 exInit "amd64" exStart).
  vm_compute. reflexivity.
Defined.

Lemma added_are_the_source_matches_witness :
  exists deps' st',
    pullArch (D := exDeb) (exCtx false false false true []) exSrc 5 exInit
      "amd64" exStart = Some (deps', st')
    /\ exists ms,
        progress (env st') = progress (env exStart) ++ ms
        /\ addedOf ms
           = flat_map (fun d => @Search exDeb (sourcePackageList exStart) d
                                  (allMatches (exCtx false false false true []))) deps'.
Proof.
  eexists. eexists. split; [vm_compute; reflexivity|].
  eapply (added_are_the_source_matches (D := exDeb)
            (exCtx false false false true []) exSrc 5 exInit "amd64" exStart).
  vm_compute. reflexivity.
Defined.

Lemma unsatisfiable_entries_reported_witness :
  exists deps' st',
    pullArch (D := exDeb) (exCtx false false false false []) exSrc 5 exInit
      "amd64" exStart = Some (deps', st')
    /\ exists ms,
        progress (env st') = progress (env exStart) ++ ms
        /\ unsatisfiableOf ms
           = filter (fun d => match @Search exDeb (sourcePackageList exStart) d
                                     (allMatches (exCtx false false false false [])) with
                              | [] => true
                              | _ :: _ => false
                              end) deps'.
Proof.
  eexists. eexists. split; [vm_compute; reflexivity|].
  eapply (unsatisfiable_entries_reported (D := exDeb)
            (exCtx false false false false []) exSrc 5 exInit "amd64" exStart).
  vm_compute. reflexivity.
Defined.

Lemma added_packages_are_verified_witness :
  exists deps' st',
    pullArch (D := exDeb) (exCtx false false false false []) exSrc 5 exInit
      "amd64" exStart = Some (deps', st')
    /\ exists ms calls,
        extends exStart st' ms calls
        /\ verifiedPackagesOf calls = map (fun p => (p, "amd64")) (addedOf ms).
Proof.
  eexists. eexists. split; [vm_compute; reflexivity|].
  eapply (added_packages_are_verified (D := exDeb)
            (exCtx false false false false []) exSrc 5 exInit "amd64" exStart).
  - reflexivity.
  - vm_compute. reflexivity.
Defined.

Lemma removal_ends_without_match_witness :
  exists st',
    removeLoop (D := exDeb) (exCtx false false false false []) 5 exPkgA2
      (exLocals [exPkgA1; exPkgB; exPkgA2] []) = Some st'
    /\ @Search exDeb (packageList st') (sameNameArch exPkgA2)
                (allMatches (exCtx false false false false [])) = [].
Proof.
  eexists. split; [vm_compute; reflexivity|].
  refine (removal_ends_without_match (D := exDeb)
            (exCtx false false false false []) 5 exPkgA2
            (exLocals [exPkgA1; exPkgB; exPkgA2] []) _ _).
  vm_compute. reflexivity.
Defined.

Lemma no_deps_adds_the_direct_matches_witness :
  exists st',
    performPull (D := exDeb) (exCtx false true false false []) exSrc 5 exInit
      ["amd64"; "i386"] exStart = Some st'
    /\ exists ms,
        progress (env st') = progress (env exStart) ++ ms
        /\ addedOf ms
           = flat_map (fun a =>
                         flat_map (fun d => @Search exDeb (sourcePackageList exStart)
                                              (bindArch a d)
                                              (allMatches (exCtx false true false false [])))
                                  exInit) ["amd64"; "i386"].
Proof.
  eexists. split; [vm_compute; reflexivity|].
  eapply (no_deps_adds_the_direct_matches (D := exDeb)
            (exCtx false true false false []) exSrc 5 exInit ["amd64"; "i386"]).
  - reflexivity.
  - vm_compute. reflexivity.
Defined.

Lemma initial_expressions_are_the_arguments_witness :
  exists p,
    prepare (D := exDeb) (exCtx false false false false ["amd64"])
            ["old"; "src"; "new"; "pkgA (>= 1.0)"; "pkgB"] exEnv = inr p
    /\ initialDependencies p
       = map (fun a => fst (@ParseDependency exDeb a))
             (skipn 3 ["old"; "src"; "new"; "pkgA (>= 1.0)"; "pkgB"])
    /\ Forall (fun a => snd (@ParseDependency exDeb a) = None)
              (skipn 3 ["old"; "src"; "new"; "pkgA (>= 1.0)"; "pkgB"])
    /\ 1 <= List.length (initialDependencies p).
Proof.
  eexists. split; [vm_compute; reflexivity|].
  eapply (initial_expressions_are_the_arguments (D := exDeb)
            (exCtx false false false false ["amd64"])
            ["old"; "src"; "new"; "pkgA (>= 1.0)"; "pkgB"] exEnv).
  vm_compute. reflexivity.
Defined.

Lemma simple_pull_completes_witness :
  exists st',
    performPull (D := exDeb) (exCtx false true true false []) exSrc 3 exInit
      ["amd64"; "i386"] exStart = Some st'.
Proof.
  apply simple_pull_completes; [reflexivity|reflexivity|simpl; lia].
Defined.

Lemma verification_errors_reported_witness :
  exists deps1 st1,
    verifyAll (D := exDeb) (exCtx false false false false []) "amd64"
      [exPkgBad; exPkgA2] [] exStart = (deps1, st1)
    /\ packageList st1 = packageList exStart
    /\ progress (env st1)
       = progress (env exStart)
         ++ map (fun px => MsgVerifyError (fst px) (snd px))
                (verificationErrors (D := exDeb) (exCtx false false false false [])
                   "amd64" (@NewPackageList exDeb) [exPkgBad; exPkgA2]
                   (packageList exStart))
    /\ err st1
       = snd (@VerifyDependencies exDeb
                (fold_left (@Add exDeb) [exPkgBad; exPkgA2] (@NewPackageList exDeb))
                (DependencyOptions (exCtx false false false false [])) ["amd64"]
                (packageList exStart)).
Proof.
  eexists. eexists. split; [vm_compute; reflexivity|].
  refine (verification_errors_reported (D := exDeb) (exCtx false false false false [])
            "amd64" [exPkgBad; exPkgA2] [] exStart _ _ _).
  vm_compute. reflexivity.
Defined.

(** The candidate list keeps the packages already verified, so the error
    of [pkgC] comes back when [pkgA] is added and is printed once more, this
    time with [pkgA]. *)
Example verification_errors_of_example :
  verificationErrors (D := exDeb) (exCtx false false false false []) "amd64"
    (@NewPackageList exDeb) [exPkgBad; exPkgA2] (packageList exStart)
  = [(exPkgBad, "InvalidRelation: pkgC"%string);
     (exPkgA2, "InvalidRelation: pkgC"%string)].
Proof. vm_compute. reflexivity. Qed.

Lemma returned_error_is_shared_err_witness :
  exists p st,
    prepare (D := exDeb) (exCtx true false false false ["amd64"])
            ["old"; "src"; "new"; "pkgC"] exEnv = inr p
    /\ performPull (exCtx true false false false ["amd64"]) (source (loaded p)) 5
         (initialDependencies p) (architecturesList p) (locals (loaded p)) = Some st
    /\ exists r e' calls,
        aptlySnapshotPull (exCtx true false false false ["amd64"]) 5
          ["old"; "src"; "new"; "pkgC"] exEnv = Some (r, e')
        /\ history e' = history exEnv ++ calls
        /\ r = last (verifiedOf calls) None
        /\ r = match lastMatch (D := exDeb) (exCtx true false false false ["amd64"])
                       (sourcePackageList (locals (loaded p))) calls with
               | None => None
               | Some (arch, dep) =>
                   snd (@VerifyDependencies exDeb
                          (fold_left (@Add exDeb)
                             (@Search exDeb (sourcePackageList (locals (loaded p))) dep
                                      (allMatches (exCtx true false false false ["amd64"])))
                             (@NewPackageList exDeb))
                          (DependencyOptions (exCtx true false false false ["amd64"]))
                          [arch] (packageList st))
               end.
Proof.
  eexists. eexists. split; [vm_compute; reflexivity|].
  split; [vm_compute; reflexivity|].
  edestruct (returned_error_is_shared_err (D := exDeb)
               (exCtx true false false false ["amd64"]) 5
               ["old"; "src"; "new"; "pkgC"] exEnv)
    as (r & e' & calls & Hrun & Hh & Hdry & _ & Hpin & _).
  - vm_compute. reflexivity.
  - vm_compute. reflexivity.
  - exists r, e', calls.
    repeat split; [exact Hrun|exact Hh|exact (Hdry eq_refl)|exact (Hpin eq_refl eq_refl)].
Defined.

(** With dry-run, a pull whose last verification fails returns that error
    although the loop ran to its end. *)
Example dry_run_returns_verification_error :
  option_map fst
    (aptlySnapshotPull (D := exDeb) (exCtx true false false false ["amd64"]) 5
       ["old"; "src"; "new"; "pkgC"] exEnv)
  = Some (Some "InvalidRelation: pkgC"%string).
Proof. vm_compute. reflexivity. Qed.

(** With dry-run, when a later verification succeeds the earlier error is
    lost: [pkgC] fails, then [pkgB], appended for [pkgA], verifies. *)
Example dry_run_returns_the_last_verification_only :
  option_map fst
    (aptlySnapshotPull (D := exDeb) (exCtx true false false false ["amd64"]) 5
       ["old"; "src"; "new"; "pkgA"; "pkgC"] exEnv)
  = Some None.
Proof. vm_compute. reflexivity. Qed.

(** Without dry-run the same pull creates the snapshot and returns [nil]. *)
Example same_pull_without_dry_run_returns_nil :
  option_map fst
    (aptlySnapshotPull (D := exDeb) (exCtx false false false false ["amd64"]) 5
       ["old"; "src"; "new"; "pkgC"] exEnv)
  = Some None.
Proof. vm_compute. reflexivity. Qed.
